(** * fscrawler.controller.fsapi: request partitioning, result ingestion,
      relationship resolution and the per-hop driver

    A shallow embedding of [src/fscrawler/controller/fsapi.py].  Python
    integers are [Z], ids are [string]s, dictionaries are [gmap]s, sets are
    [gset]s, parsed JSON documents are values of [json], and an exception is
    the [Raise] case of [result]. *)

From Equations Require Import Equations.
From stdpp Require Import gmap strings list fin_maps.
From Stdlib Require Import ZArith Lia Ascii.

Local Open Scope Z_scope.
Local Set Warnings "-register-all".

(** ** Exceptions and fallible computations *)

(** The exceptions the module can raise.  [IllTyped] stands for the
    [TypeError] / [AttributeError] Python raises when an operation meets a JSON
    value of the wrong type; it is also the answer of the model where an id
    position holds something that is not a string, which is outside the data
    model (ids are strings: they are joined with [","] into a request path). *)
Inductive exn : Type :=
| KeyError (key : string)
| ValueError
| IllTyped
| TransportFailure.

Inductive result (A : Type) : Type :=
| Ok (a : A)
| Raise (e : exn).
Arguments Ok {A} a.
Arguments Raise {A} e.

Global Instance result_ret : MRet result := λ A a, Ok a.
Global Instance result_bind : MBind result := λ A B k m,
  match m with
  | Ok a => k a
  | Raise e => Raise e
  end.

(** A [for] loop whose body may raise: the state is threaded from one
    iteration to the next and the first exception ends the loop. *)
Fixpoint for_each {A S} (body : A → S → result S) (l : list A) (s : S)
  : result S :=
  match l with
  | [] => Ok s
  | x :: l' => s' ← body x s; for_each body l' s'
  end.

(** ** Request partitioning *)

Module Partition.

(** [sys.maxsize] of a 64-bit CPython: the largest stop [itertools.islice]
    accepts. *)
Definition sys_maxsize : Z := 2 ^ 63 - 1.

(** The loop of [split_seq]: [list(islice(it, size))] takes the next [size]
    items of the iterator, the loop ends at the first empty [item]. *)
Equations? split_seq_loop {A} (size : nat) (it : list A) : list (list A)
  by wf (length it) lt :=
  split_seq_loop 0%nat _ := [];
  split_seq_loop (S _) [] := [];
  split_seq_loop (S n) (x :: it') :=
    take (S n) (x :: it') :: split_seq_loop (S n) (drop (S n) (x :: it')).
Proof. simpl. rewrite length_drop. lia. Qed.

(** [split_seq(iterable, size)].  [islice] raises [ValueError] for a stop
    that is negative or above [sys.maxsize]; the generator raises it when it is
    first advanced. *)
Definition split_seq {A} (iterable : list A) (size : Z)
  : result (list (list A)) :=
  if bool_decide (0 ≤ size ≤ sys_maxsize)
  then Ok (split_seq_loop (Z.to_nat size) iterable)
  else Raise ValueError.

(** One request of a group.  With [max_ids_per_request > 1] a request is a
    list of ids ([ids[i*m:(i+1)*m]]); otherwise [final = ids] and a request is
    the id itself, not wrapped in a list. *)
Inductive request : Type :=
| Ids (l : list string)
| BareId (i : string).

(** The ids a request carries. *)
Definition request_ids (r : request) : list string :=
  match r with
  | Ids l => l
  | BareId i => [i]
  end.

(** A Python slice [l[a:b]] for [0 ≤ a ≤ b]. *)
Definition slice {A} (l : list A) (a b : nat) : list A :=
  take (b - a) (drop a l).

(** The list comprehension
    [[req_id for req_id in ids if req_id is not None and req_id not in exclusion]]. *)
Definition keep (exclusion : gset string) (req_id : option string) : option string :=
  match req_id with
  | Some i => if bool_decide (i ∈ exclusion) then None else Some i
  | None => None
  end.

Definition filter_ids (ids : list (option string)) (exclusion : gset string)
  : list string :=
  omap (keep exclusion) ids.

(** [partition_requests(ids, exclusion, max_ids_per_request,
    max_concurrent_requests)].  [exclusion] is [None] or a set (of a
    dictionary, its keys); the result is the list of groups the returned
    generator yields. *)
Definition partition_requests (ids : list (option string))
    (exclusion : option (gset string))
    (max_ids_per_request max_concurrent_requests : Z)
  : result (list (list request)) :=
  let exclusion := default ∅ exclusion in
  let ids := filter_ids ids exclusion in
  let final :=
    if bool_decide (1 < max_ids_per_request) then
      let m := Z.to_nat max_ids_per_request in
      (λ i, Ids (slice ids (i * m) ((i + 1) * m)))
        <$> seq 0 (Z.to_nat ((Z.of_nat (length ids) + max_ids_per_request - 1)
                              `div` max_ids_per_request))
    else BareId <$> ids in
  split_seq final max_concurrent_requests.

(** The module constants. *)
Definition MAX_PERSONS : Z := 200.
Definition MAX_CONCURRENT_REQUESTS : Z := 40.

End Partition.

Import Partition.

(** ** Parsed JSON documents and the Python operations applied to them *)

(** A document as [json.loads] returns it.  Only the truth value of a number is
    ever looked at, so a number is kept by an integer value.  The members of a
    parsed object have distinct keys. *)
Inductive json : Type :=
| JNull
| JBool (b : bool)
| JNum (n : Z)
| JStr (s : string)
| JList (items : list json)
| JObj (members : list (string * json)).

Module Py.

(** [bool(v)] *)
Definition truthy (v : json) : bool :=
  match v with
  | JNull => false
  | JBool b => b
  | JNum n => bool_decide (n ≠ 0)
  | JStr s => bool_decide (s ≠ "")
  | JList items => bool_decide (items ≠ [])
  | JObj members => bool_decide (members.*1 ≠ [])
  end.

(** The value bound to [k] in the members of an object. *)
Fixpoint assoc (k : string) (members : list (string * json)) : option json :=
  match members with
  | [] => None
  | (k', v) :: rest => if decide (k' = k) then Some v else assoc k rest
  end.

(** [s in t] for two strings: [s] occurs in [t]. *)
Fixpoint occurs (s t : string) : bool :=
  String.prefix s t ||
  match t with
  | EmptyString => false
  | String _ t' => occurs s t'
  end.

Definition is_str (k : string) (v : json) : bool :=
  match v with
  | JStr s => bool_decide (s = k)
  | _ => false
  end.

(** [k in v] for a string [k]: a key of an object, an item of a list, a
    substring of a string; [TypeError] for the rest. *)
Definition contains (k : string) (v : json) : result bool :=
  match v with
  | JObj members => Ok (bool_decide (is_Some (assoc k members)))
  | JList items => Ok (existsb (is_str k) items)
  | JStr s => Ok (occurs k s)
  | _ => Raise IllTyped
  end.

(** [v[k]] for a string [k]: [KeyError] for a missing key of an object,
    [TypeError] for anything that is not an object. *)
Definition getitem (v : json) (k : string) : result json :=
  match v with
  | JObj members =>
      match assoc k members with
      | Some x => Ok x
      | None => Raise (KeyError k)
      end
  | _ => Raise IllTyped
  end.

(** The characters of a string, as [for c in s] yields them. *)
Definition chars (s : string) : list string :=
  (λ c, String c "") <$> String.list_ascii_of_string s.

(** [for x in v]: the items of a list, the keys of an object, the characters
    of a string; [TypeError] for the rest. *)
Definition iter (v : json) : result (list json) :=
  match v with
  | JList items => Ok items
  | JObj members => Ok (JStr <$> members.*1)
  | JStr s => Ok (JStr <$> chars s)
  | _ => Raise IllTyped
  end.

(** A value where the code needs a string (the argument of [urlparse]). *)
Definition as_str (v : json) : result string :=
  match v with
  | JStr s => Ok s
  | _ => Raise IllTyped
  end.

(** A value in an id position (a dictionary key or set member of the graph):
    the model follows the code on strings. *)
Definition as_id (v : json) : result string := as_str v.


(** [s.strip('/')] *)
Fixpoint lstrip_slash (s : string) : string :=
  match s with
  | String "/"%char s' => lstrip_slash s'
  | _ => s
  end.

Definition strip_slash (s : string) : string :=
  String.rev (lstrip_slash (String.rev (lstrip_slash s))).

(** [",".join(parts)] *)
Fixpoint join (sep : string) (parts : list string) : string :=
  match parts with
  | [] => ""
  | [p] => p
  | p :: rest => p +:+ sep +:+ join sep rest
  end.

End Py.

(** ** Collaborators outside this module *)

(** The enumeration [RelationshipType] of [fscrawler.model.relationship_types]
    is not among the sources; it is taken as a parameter: its members, the
    call [RelationshipType(value)] that finds the member with a value (or
    raises [ValueError]), the member [UNSPECIFIED_PARENT], and the comparison
    [member != s] with a string [s], of which it is only assumed that a member
    differs from every string that is not its value. *)
Class RelationshipTypes := {
  RelationshipType : Type;
  RelationshipType_eq_dec :: EqDecision RelationshipType;
  RelationshipType_call : string → option RelationshipType;
  UNSPECIFIED_PARENT : RelationshipType;
  ne_str : RelationshipType → string → bool;
  ne_str_other_value v w t :
    RelationshipType_call v = Some t → v ≠ w → ne_str t w = true;
}.

(** The consistency validator held by the graph ([graph.cp_validator]) is a
    parameter: its state and its method [add(child, parent, rel_id)]. *)
Class Validator := {
  ChildParentValidator : Type;
  cp_add : ChildParentValidator → string → string → string → ChildParentValidator;
}.

(** [urllib.parse.urlparse(url).path] for a string [url] ([ValueError] for a
    URL the parser rejects). *)
Class UrlLib := {
  urlparse_path : string → result string;
}.

(** The transport: the state of a [Session] and its one operation
    [get_urla(path)], which yields the parsed document ([JNull] for an empty
    body) or fails. *)
Class Transport := {
  Session : Type;
  get_urla : Session → string → Session * result json;
}.

(** [str(l)] for a list of strings, as an f-string formats it. *)
Class Formatting := {
  str_of_list : list string → string;
}.

(** The asyncio event loop, by the order in which the coroutines gathered for
    one group complete. *)
Record EventLoop := {
  completion : ∀ A : Type, list A → list A;
}.

(** ** The graph *)

(** Modelled from the spec: the class [Individual] of
    [fscrawler.model.individual] is missing; by the spec an individual is an
    id, the hop depth at first discovery and an opaque raw payload, and
    [add_data] records the payload. *)
Record Individual := {
  fid : string;
  hop : Z;
  payload : json;
}.

Definition Individual_new (i : string) : Individual :=
  {| fid := i; hop := 0; payload := JNull |}.

Definition set_hop (h : Z) (ind : Individual) : Individual :=
  {| fid := fid ind; hop := h; payload := payload ind |}.

Definition add_data (person : json) (ind : Individual) : Individual :=
  {| fid := fid ind; hop := hop ind; payload := person |}.

(** The attributes of [fscrawler.model.graph.Graph] the module reads and
    writes: the dictionary [individuals], the set [frontier], the dictionary
    [relationships] keyed by (child, parent), and [cp_validator]. *)
Record Graph `{RelationshipTypes, Validator} := {
  individuals : gmap string Individual;
  frontier : gset string;
  relationships : gmap (string * string) RelationshipType;
  cp_validator : ChildParentValidator;
}.

(** [graph.get_relationships_to_validate(strict_resolve)]: a query answered by
    the graph and its validator, whose selection rule is theirs. *)
Class Resolution `{RelationshipTypes, Validator} := {
  get_relationships_to_validate : Graph → bool → list (option string);
}.

Section GraphOps.
Context `{RelationshipTypes, Validator}.

Definition set_individuals (f : gmap string Individual → gmap string Individual)
    (g : Graph) : Graph :=
  {| individuals := f (individuals g); frontier := frontier g;
     relationships := relationships g; cp_validator := cp_validator g |}.

Definition set_frontier (f : gset string → gset string) (g : Graph) : Graph :=
  {| individuals := individuals g; frontier := f (frontier g);
     relationships := relationships g; cp_validator := cp_validator g |}.

Definition set_relationships
    (f : gmap (string * string) RelationshipType
         → gmap (string * string) RelationshipType)
    (g : Graph) : Graph :=
  {| individuals := individuals g; frontier := frontier g;
     relationships := f (relationships g); cp_validator := cp_validator g |}.

Definition set_cp_validator (f : ChildParentValidator → ChildParentValidator)
    (g : Graph) : Graph :=
  {| individuals := individuals g; frontier := frontier g;
     relationships := relationships g; cp_validator := f (cp_validator g) |}.

(** Modelled from the spec: [Graph.add_to_frontier] is missing; by the spec
    ingestion registers the id into the frontier, a set. *)
Definition add_to_frontier (i : string) (g : Graph) : Graph :=
  set_frontier (λ fr, fr ∪ {[i]}) g.

(** Modelled from the spec: [Graph.add_parent_child_relationship] is
    missing; by the spec an edge is unique per (child, parent), is created
    on first discovery with the unspecified type, and is afterwards only
    updated by resolution. *)
Definition add_parent_child_relationship (child parent : string) (g : Graph)
  : Graph :=
  set_relationships
    (λ rels, match rels !! (child, parent) with
             | Some _ => rels
             | None => <[(child, parent) := UNSPECIFIED_PARENT]> rels
             end) g.
End GraphOps.

(** ** [FamilySearchAPI]: relationship resolution and result ingestion *)

Definition GET_PERSONS : string := "/platform/tree/persons/.json?pids=".
Definition RESOLVE_RELATIONSHIP : string :=
  "/platform/tree/child-and-parents-relationships/".

(** The diagnostic of [get_relationship_type],
    "Replacing fact: {rel_type} with {new_type} for relationship id:
    {rel['id']} ({field})", by the four values it formats. *)
Record Replacing `{RelationshipTypes} := {
  replaced : RelationshipType;
  replacement : string;
  of_relationship : json;
  in_field : string;
}.

Section StaticMethods.
Context `{RelationshipTypes, Validator, UrlLib}.

(** The body of the loop over the facts in [get_relationship_type]; the
    state is [rel_type] and the diagnostics logged so far. *)
Definition scan_fact (rel : json) (field : string) (default : RelationshipType)
    (fact : json) (st : RelationshipType * list Replacing)
  : result (RelationshipType * list Replacing) :=
  let '(rel_type, log) := st in
  ty ← Py.getitem fact "type";
  url ← Py.as_str ty;
  path ← urlparse_path url;
  let new_type := Py.strip_slash path in
  log' ← (if bool_decide (rel_type ≠ default) && ne_str rel_type new_type
          then rel_id ← Py.getitem rel "id";
               Ok (log ++ [{| replaced := rel_type; replacement := new_type;
                              of_relationship := rel_id; in_field := field |}])
          else Ok log);
  match RelationshipType_call new_type with
  | Some t => Ok (t, log')
  | None => Raise ValueError
  end.

(** [get_relationship_type(rel, field, default)], with the diagnostics it
    logs. *)
Definition get_relationship_type (rel : json) (field : string)
    (default : RelationshipType)
  : result (RelationshipType * list Replacing) :=
  present ← Py.contains field rel;
  if (present : bool) then
    facts ← Py.getitem rel field;
    facts ← Py.iter facts;
    for_each (scan_fact rel field default) facts (default, [])
  else Ok (default, []).

(** [_update_relationship_info(rel, child, parent, fact_key, graph)]; the
    diagnostics go to the logger and leave the graph alone. *)
Definition _update_relationship_info (rel child parent : json)
    (fact_key : string) (graph : Graph) : result Graph :=
  if Py.truthy child && Py.truthy parent then
    '(relationship_type, _) ← get_relationship_type rel fact_key UNSPECIFIED_PARENT;
    c ← Py.as_id child;
    p ← Py.as_id parent;
    Ok (set_relationships <[(c, p) := relationship_type]> graph)
  else Ok graph.

(** [rel[slot]["resourceId"] if slot in rel else None] *)
Definition resourceId_or_None (rel : json) (slot : string) : result json :=
  present ← Py.contains slot rel;
  if (present : bool) then
    s ← Py.getitem rel slot;
    Py.getitem s "resourceId"
  else Ok JNull.

(** The body of the loop over the records in [process_relationship_result]. *)
Definition resolve_record (rel : json) (graph : Graph) : result Graph :=
  parent1 ← resourceId_or_None rel "parent1";
  parent2 ← resourceId_or_None rel "parent2";
  child ← resourceId_or_None rel "child";
  graph ← _update_relationship_info rel child parent1 "parent1Facts" graph;
  _update_relationship_info rel child parent2 "parent2Facts" graph.

(** [process_relationship_result(data, graph)] *)
Definition process_relationship_result (data : json) (graph : Graph)
  : result Graph :=
  if Py.truthy data then
    present ← Py.contains "childAndParentsRelationships" data;
    if (present : bool) then
      rels ← Py.getitem data "childAndParentsRelationships";
      rels ← Py.iter rels;
      for_each resolve_record rels graph
    else Ok graph
  else Ok graph.

(** [_process_parent_child(key, data, graph, child, rel_id)] *)
Definition _process_parent_child (key : string) (data : json) (graph : Graph)
    (child : string) (rel_id : json) : result Graph :=
  present ← Py.contains key data;
  if (present : bool) then
    slot ← Py.getitem data key;
    parent ← Py.getitem slot "resourceId";
    parent ← Py.as_id parent;
    let graph := add_to_frontier parent graph in
    let graph := add_parent_child_relationship child parent graph in
    rel_id ← Py.as_id rel_id;
    Ok (set_cp_validator (λ v, cp_add v child parent rel_id) graph)
  else Ok graph.

(** The body of the loop over the person entries:
    [working_on = graph.individuals[person["id"]] = Individual(person["id"])],
    then the hop depth and the payload are set on that object. *)
Definition ingest_person (hop_count : Z) (person : json) (graph : Graph)
  : result Graph :=
  pid ← Py.getitem person "id";
  pid ← Py.as_id pid;
  let working_on := Individual_new pid in
  let working_on := set_hop hop_count working_on in
  let working_on := add_data person working_on in
  Ok (set_individuals <[pid := working_on]> graph).

(** The body of the loop over the relationship entries. *)
Definition ingest_relationship (relationship : json) (graph : Graph)
  : result Graph :=
  rel_id ← Py.getitem relationship "id";
  c ← Py.getitem relationship "child";
  child ← Py.getitem c "resourceId";
  child ← Py.as_id child;
  let graph := add_to_frontier child graph in
  graph ← _process_parent_child "parent1" relationship graph child rel_id;
  _process_parent_child "parent2" relationship graph child rel_id.

(** [process_persons_result(data, graph, hop_count)] *)
Definition process_persons_result (data : json) (graph : Graph) (hop_count : Z)
  : result Graph :=
  if Py.truthy data then
    persons ← Py.getitem data "persons";
    persons ← Py.iter persons;
    graph ← for_each (ingest_person hop_count) persons graph;
    present ← Py.contains "childAndParentsRelationships" data;
    if (present : bool) then
      rels ← Py.getitem data "childAndParentsRelationships";
      rels ← Py.iter rels;
      for_each ingest_relationship rels graph
    else Ok graph
  else Ok graph.
End StaticMethods.

(** ** The net effect of an ingestion

    The elementary changes [process_persons_result] makes to a graph, and the
    person entries of a response; they serve to compare ingestions. *)

Inductive update `{RelationshipTypes, Validator} : Type :=
| SetIndividual (i : string) (ind : Individual)
| AddToFrontier (i : string)
| AddEdge (child parent : string)
| Report (child parent rel_id : string).

Section Effects.
Context `{RelationshipTypes, Validator}.

Definition apply_update (u : update) (g : Graph) : Graph :=
  match u with
  | SetIndividual i ind => set_individuals <[i := ind]> g
  | AddToFrontier i => add_to_frontier i g
  | AddEdge child parent => add_parent_child_relationship child parent g
  | Report child parent rel_id =>
      set_cp_validator (λ v, cp_add v child parent rel_id) g
  end.

Definition apply_updates (us : list update) (g : Graph) : Graph :=
  foldl (λ g u, apply_update u g) g us.

(** The person entries of a response, [data["persons"]], and the id of an
    entry, [person["id"]]. *)
Definition person_entries (data : json) : list json :=
  match Py.getitem data "persons" ≫= Py.iter with
  | Ok entries => entries
  | Raise _ => []
  end.

Definition person_id (person : json) : result string :=
  Py.getitem person "id" ≫= Py.as_id.

(** The record ingestion stores for a person entry at a hop depth. *)
Definition individual_of (i : string) (hop_count : Z) (person : json)
  : Individual :=
  {| fid := i; hop := hop_count; payload := person |}.

(** An update that may come from ingesting the given person entries at the
    given hop depth: every individual it sets is the record of one of them. *)
Definition from_entries (hop_count : Z) (entries : list json) (u : update)
  : Prop :=
  match u with
  | SetIndividual i ind =>
      ∃ e, e ∈ entries ∧ person_id e = Ok i ∧ ind = individual_of i hop_count e
  | _ => True
  end.

(** Two updates that can be applied in either order: all of them, except
    two that set different records for the same id. *)
Definition compatible (u1 u2 : update) : Prop :=
  match u1, u2 with
  | SetIndividual i a, SetIndividual j b => i ≠ j ∨ a = b
  | _, _ => True
  end.

(** A step on graphs whose outcome does not depend on the graph: it raises
    on every graph, or it applies on every graph the same updates, all of
    them satisfying [P]. *)
Definition performs (P : update → Prop) (f : Graph → result Graph) : Prop :=
  (∃ e, ∀ g, f g = Raise e)
  ∨ (∃ us, Forall P us ∧ ∀ g, f g = Ok (apply_updates us g)).
End Effects.

(** ** The net effect of a resolution

    The writes [process_relationship_result] makes to the relationship map,
    [graph.relationships[(child, parent)] = relationship_type], in order. *)

Section Writes.
Context `{RelationshipTypes, Validator}.

Definition write_edges (ws : list (string * string * RelationshipType))
    (rels : gmap (string * string) RelationshipType)
  : gmap (string * string) RelationshipType :=
  foldl (λ rels w, <[w.1 := w.2]> rels) rels ws.

(** A step on graphs that raises on every graph, or makes on every graph the
    same writes to the relationship map and nothing else. *)
Definition resolves (f : Graph → result Graph) : Prop :=
  (∃ e, ∀ g, f g = Raise e)
  ∨ (∃ ws, ∀ g, f g = Ok (set_relationships (write_edges ws) g)).
End Writes.

(** ** [FamilySearchAPI]: the drivers *)

Section Drivers.
Context `{RelationshipTypes, Validator, UrlLib, Transport, Formatting}.
Context `{!Resolution}.

(** The fetches of one group are issued in the order of the group. *)
Definition issue (paths : list string) (s : Session)
  : Session * list (result json) :=
  foldl (λ '(s, responses) path,
           let '(s', r) := get_urla s path in (s', responses ++ [r]))
        (s, []) paths.

(** [loop.run_until_complete(asyncio.gather( *coroutines))] for coroutines
    that each await [get_urla(path)] and hand the document to [process]:
    the results are processed one at a time, in the order of completion, and
    the first exception aborts the group. *)
Definition run_until_complete (loop : EventLoop)
    (process : json → Graph → result Graph) (paths : list string)
    (st : Session * Graph) : result (Session * Graph) :=
  let '(s, graph) := st in
  let '(s', responses) := issue paths s in
  graph' ← for_each (λ response graph, data ← response; process data graph)
                    (completion loop _ responses) graph;
  Ok (s', graph').

(** The path of [get_persons_from_list]: [GET_PERSONS + ",".join(ids)]. *)
Definition persons_path (ids : request) : string :=
  GET_PERSONS +:+
  Py.join "," (match ids with Ids l => l | BareId i => Py.chars i end).

(** The path of [get_relationships_from_id]:
    [f"{RESOLVE_RELATIONSHIP}{rel_id}.json"]. *)
Definition relationship_path (rel_id : request) : string :=
  RESOLVE_RELATIONSHIP +:+
  (match rel_id with Ids l => str_of_list l | BareId i => i end) +:+ ".json".

(** [add_individuals_to_graph(hop_count, graph, ids, loop)]; the delay
    between groups changes no state. *)
Definition add_individuals_to_graph (hop_count : Z) (ids : list (option string))
    (loop : EventLoop) (st : Session * Graph) : result (Session * Graph) :=
  groups ← partition_requests ids (Some (dom (individuals st.2)))
                              MAX_PERSONS MAX_CONCURRENT_REQUESTS;
  for_each (λ requests st,
      run_until_complete loop
        (λ data graph, process_persons_result data graph hop_count)
        (persons_path <$> requests) st)
    groups st.

(** [resolve_relationships(graph, relationships, loop)] *)
Definition resolve_relationships (relationships : list (option string))
    (loop : EventLoop) (st : Session * Graph) : result (Session * Graph) :=
  groups ← partition_requests relationships None 1 (MAX_CONCURRENT_REQUESTS * 5);
  for_each (λ requests st,
      run_until_complete loop process_relationship_result
        (relationship_path <$> requests) st)
    groups st.

(** [process_hop(hop_count, graph, loop, strict_resolve)] *)
Definition process_hop (hop_count : Z) (loop : EventLoop)
    (strict_resolve : bool) (st : Session * Graph) : result (Session * Graph) :=
  let '(s, graph) := st in
  let todo := frontier graph in
  let graph := set_frontier (λ _, ∅) graph in
  '(s, graph) ← add_individuals_to_graph hop_count (Some <$> elements todo)
                                         loop (s, graph);
  let graph := set_frontier (λ fr, fr ∖ dom (individuals graph)) graph in
  let relationships_to_validate :=
    get_relationships_to_validate graph strict_resolve in
  resolve_relationships relationships_to_validate loop (s, graph).
End Drivers.

(** ** A sample environment

    Concrete collaborators on which the definitions can be run: a small
    enumeration of relationship types, a validator that keeps the set of the
    triples reported to it, a URL parser for plain [scheme://host/path] URLs, a
    transport that answers from a table and counts its requests, and an event
    loop that completes the coroutines of a group in reverse order. *)

Module Sample.

Inductive tag : Type :=
| UnspecifiedParentType
| BiologicalParent
| AdoptiveParent
| StepParent.

Global Instance tag_eq_dec : EqDecision tag.
Proof. solve_decision. Defined.

Definition value (t : tag) : string :=
  match t with
  | UnspecifiedParentType => "UnspecifiedParentType"
  | BiologicalParent => "BiologicalParent"
  | AdoptiveParent => "AdoptiveParent"
  | StepParent => "StepParent"
  end.

Definition of_value (v : string) : option tag :=
  if decide (v = "UnspecifiedParentType") then Some UnspecifiedParentType
  else if decide (v = "BiologicalParent") then Some BiologicalParent
  else if decide (v = "AdoptiveParent") then Some AdoptiveParent
  else if decide (v = "StepParent") then Some StepParent
  else None.

Global Program Instance relationship_types : RelationshipTypes := {|
  RelationshipType := tag;
  RelationshipType_call := of_value;
  UNSPECIFIED_PARENT := UnspecifiedParentType;
  ne_str t w := bool_decide (value t ≠ w);
|}.
Next Obligation.
  intros v w t Hv Hne. apply bool_decide_eq_true_2.
  unfold of_value in Hv. repeat case_decide; naive_solver.
Qed.

Global Instance validator : Validator := {|
  ChildParentValidator := gset (string * string * string);
  cp_add v child parent rel_id := v ∪ {[ (child, parent, rel_id) ]};
|}.

Fixpoint after_scheme (s : string) : option string :=
  match s with
  | String ":" (String "/" (String "/" rest)) => Some rest
  | String _ s' => after_scheme s'
  | EmptyString => None
  end%char.

Fixpoint from_slash (s : string) : string :=
  match s with
  | String "/" _ => s
  | String _ s' => from_slash s'
  | EmptyString => EmptyString
  end%char.

Global Instance url_lib : UrlLib := {|
  urlparse_path url :=
    Ok (match after_scheme url with
        | Some rest => from_slash rest
        | None => url
        end);
|}.

Global Instance formatting : Formatting := {|
  str_of_list l := "[" +:+ Py.join ", " l +:+ "]";
|}.

(** The documents the sample service holds, by request path. *)
Definition person (i : string) : json := JObj [("id", JStr i)].

Definition child_and_parent (rel_id child parent uri : string) : json :=
  JObj [("id", JStr rel_id);
        ("child", JObj [("resourceId", JStr child)]);
        ("parent1", JObj [("resourceId", JStr parent)]);
        ("parent1Facts", JList [JObj [("type", JStr uri)]])].

Definition documents : list (string * json) :=
  [ (GET_PERSONS +:+ "A",
     JObj [("persons", JList [person "A"]);
           ("childAndParentsRelationships",
            JList [child_and_parent "R1" "A" "B" "http://gedcomx.org/BiologicalParent"])]);
    (RESOLVE_RELATIONSHIP +:+ "R1" +:+ ".json",
     JObj [("childAndParentsRelationships",
            JList [child_and_parent "R1" "A" "B" "http://gedcomx.org/BiologicalParent"])]) ].

Global Instance transport : Transport := {|
  Session := nat;
  get_urla counter path := (S counter, Ok (default JNull (Py.assoc path documents)));
|}.


Global Instance resolution : Resolution := {|
  get_relationships_to_validate graph strict_resolve :=
    Some <$> elements (set_map (D := gset string) snd (cp_validator graph));
|}.

Definition loop : EventLoop := {| completion A l := reverse l |}.

Definition empty_graph : Graph :=
  {| individuals := ∅; frontier := ∅; relationships := ∅; cp_validator := ∅ |}.

(** The graph a run ends with (the empty graph if it raised). *)
Definition graph_of (r : result Graph) : Graph :=
  match r with
  | Ok g => g
  | Raise _ => empty_graph
  end.

(** A graph whose frontier holds the id "A", and the state after one hop
    from it. *)
Definition seed_graph : Graph :=
  {| individuals := ∅; frontier := {[ "A" ]}; relationships := ∅;
     cp_validator := ∅ |}.

Definition after_hop : nat * Graph :=
  match process_hop 0 loop false (0%nat, seed_graph) with
  | Ok st => st
  | Raise _ => (0%nat, empty_graph)
  end.

(** Persons-list responses: one person with one parent, and two persons with
    one relationship between them. *)
Definition family (i parent rel_id : string) : json :=
  JObj [("persons", JList [person i]);
        ("childAndParentsRelationships",
         JList [child_and_parent rel_id i parent
                                 "http://gedcomx.org/BiologicalParent"])].

Definition named (i name : string) : json :=
  JObj [("persons", JList [JObj [("id", JStr i); ("name", JStr name)]])].

Definition two_facts : list (string * json) :=
  [("id", JStr "R1");
   ("child", JObj [("resourceId", JStr "A")]);
   ("parent1", JObj [("resourceId", JStr "B")]);
   ("parent1Facts",
    JList [JObj [("type", JStr "http://gedcomx.org/BiologicalParent")];
           JObj [("type", JStr "http://gedcomx.org/StepParent")]])].

End Sample.

(** ** Properties of the partitioner *)

Section PartitionFacts.
Context {A : Type}.
Implicit Types (l : list A) (n : nat).

Lemma split_seq_loop_concat n l :
  (0 < n)%nat → concat (split_seq_loop n l) = l.
Proof.
  intros Hn. funelim (split_seq_loop n l); try lia; simp split_seq_loop.
  - done.
  - rewrite concat_cons.
    match goal with IH : (_ → concat _ = _) |- _ => rewrite IH by lia end.
    apply take_drop.
Qed.

Lemma split_seq_loop_zero l : split_seq_loop 0 l = [].
Proof. by simp split_seq_loop. Qed.

Lemma split_seq_loop_nil n : split_seq_loop n ([] : list A) = [].
Proof. destruct n; by simp split_seq_loop. Qed.

Lemma split_seq_loop_length n l :
  Forall (λ g, (length g ≤ n)%nat) (split_seq_loop n l).
Proof.
  funelim (split_seq_loop n l); simp split_seq_loop; try by constructor.
  constructor; [|done]. rewrite length_take. lia.
Qed.

Lemma split_seq_Ok l (c : Z) :
  0 ≤ c ≤ sys_maxsize → split_seq l c = Ok (split_seq_loop (Z.to_nat c) l).
Proof. intros Hc. unfold split_seq. by rewrite bool_decide_eq_true_2. Qed.

Lemma split_seq_inv l (c : Z) gs :
  split_seq l c = Ok gs →
  0 ≤ c ≤ sys_maxsize ∧ gs = split_seq_loop (Z.to_nat c) l.
Proof.
  unfold split_seq. case_bool_decide; [|done]. intros [= <-]. done.
Qed.

(** Consecutive slices of width [m] cover the list. *)
Lemma slices_concat l m k :
  (0 < m)%nat → (length l ≤ k * m)%nat →
  concat ((λ i, slice l (i * m) ((i + 1) * m)) <$> seq 0 k) = l.
Proof.
  intros Hm. revert l. induction k as [|k IH]; intros l Hl.
  - destruct l; [done | simpl in Hl; lia].
  - rewrite seq_S, fmap_app, concat_app. simpl.
    rewrite app_nil_r.
    assert (Hpre : concat ((λ i, slice l (i * m) ((i + 1) * m)) <$> seq 0 k)
                   = take (k * m) l).
    { etrans; [|apply (IH (take (k * m) l)); rewrite length_take; lia].
      f_equal. apply list_fmap_ext. intros j i Hi.
      apply lookup_seq in Hi as [-> Hi]. simpl.
      unfold slice. rewrite !take_drop_commute, take_take.
      do 2 f_equal. nia. }
    rewrite Hpre. unfold slice.
    rewrite (take_ge (drop _ _)) by (rewrite length_drop; nia).
    apply take_drop.
Qed.

Lemma slice_length l a b : (length (slice l a b) ≤ b - a)%nat.
Proof. unfold slice. rewrite length_take. lia. Qed.
End PartitionFacts.

(** The example of the specification: three ids, two per request. *)
Example partition_abc :
  partition_requests [Some "A"; Some "B"; Some "C"] None 2 40
  = Ok [[Ids ["A"; "B"]; Ids ["C"]]].
Proof. reflexivity. Qed.

Lemma filter_ids_elem (L : list (option string)) (E : gset string) (i : string) :
  i ∈ filter_ids L E ↔ Some i ∈ L ∧ i ∉ E.
Proof.
  unfold filter_ids. rewrite list_elem_of_omap. split.
  - intros ([j|] & Hj & Hk); simpl in Hk; [|done].
    case_bool_decide; naive_solver.
  - intros [Hi HE]. exists (Some i). split; [done|].
    simpl. by rewrite bool_decide_eq_false_2.
Qed.

(** The requests before grouping carry the filtered ids, in order. *)
Lemma final_request_ids (ids : list string) (b : Z) :
  concat (request_ids <$>
    (if bool_decide (1 < b) then
       (λ i, Ids (slice ids (i * Z.to_nat b) ((i + 1) * Z.to_nat b)))
         <$> seq 0 (Z.to_nat ((Z.of_nat (length ids) + b - 1) `div` b))
     else BareId <$> ids)) = ids.
Proof.
  case_bool_decide as Hb.
  - rewrite <- list_fmap_compose.
    apply (slices_concat ids (Z.to_nat b)); [lia|].
    assert (Z.of_nat (length ids)
            ≤ ((Z.of_nat (length ids) + b - 1) `div` b) * b); [|nia].
    pose proof (Z.div_mod (Z.of_nat (length ids) + b - 1) b).
    pose proof (Z.mod_pos_bound (Z.of_nat (length ids) + b - 1) b). nia.
  - rewrite <- list_fmap_compose. induction ids; simpl; by f_equal.
Qed.

(** C1 (as amended).  For every id list, exclusion set and max batch size, and
    for every max concurrency width [c] with [1 ≤ c] that [islice] accepts,
    [partition_requests] yields its groups, and the ids carried by all
    requests of all groups, in order, are exactly the input ids with the
    [None] entries and the members of the exclusion set removed: nothing is
    duplicated and nothing is added.  When nothing is left after filtering (so
    for an empty input) there is no group. *)
Theorem partition_requests_concat (L : list (option string))
    (E : option (gset string)) (b c : Z) :
  1 ≤ c ≤ sys_maxsize →
  ∃ groups, partition_requests L E b c = Ok groups
    ∧ concat (request_ids <$> concat groups) = filter_ids L (default ∅ E)
    ∧ (filter_ids L (default ∅ E) = [] → groups = []).
Proof.
  intros Hc. unfold partition_requests. cbv zeta.
  set (ids := filter_ids L (default ∅ E)).
  rewrite split_seq_Ok by lia. eexists. split; [done|]. split.
  - rewrite split_seq_loop_concat by lia. apply final_request_ids.
  - intros ->. simpl. case_bool_decide; [|apply split_seq_loop_nil].
    rewrite Z.div_small by lia. apply split_seq_loop_nil.
Qed.

Lemma partition_requests_concat_witness :
  ∃ groups, partition_requests [Some "A"; None; Some "B"; Some "C"]
                               (Some {[ "B" ]}) 2 40 = Ok groups
    ∧ concat (request_ids <$> concat groups)
      = filter_ids [Some "A"; None; Some "B"; Some "C"] (default ∅ (Some {[ "B" ]}))
    ∧ (filter_ids [Some "A"; None; Some "B"; Some "C"] (default ∅ (Some {[ "B" ]})) = []
       → groups = []).
Proof.
  apply (partition_requests_concat
           [Some "A"; None; Some "B"; Some "C"] (Some {[ "B" ]}) 2 40).
  unfold sys_maxsize. lia.
Defined.

(** C1 fails as stated at a max concurrency width of 0: [islice(it, 0)] is
    empty, the generator yields no group, and the id "A" is lost. *)
Lemma partition_requests_concat_width_zero :
  ∃ groups, partition_requests [Some "A"] None 200 0 = Ok groups
    ∧ concat (request_ids <$> concat groups) ≠ filter_ids [Some "A"] ∅.
Proof. exists []. split; [reflexivity|]. vm_compute. discriminate. Qed.

(** C2 (as amended).  When the max batch size is at most 1, every request
    that [partition_requests] produces is one filtered input id, the id
    itself and not a list holding it; for a max concurrency width of at least
    1 the requests are the filtered input ids, each once, in the filtered
    input's order. *)
Theorem partition_requests_single (L : list (option string))
    (E : option (gset string)) (b c : Z) (groups : list (list request)) :
  b ≤ 1 →
  partition_requests L E b c = Ok groups →
  Forall (λ r, ∃ i, r = BareId i ∧ i ∈ filter_ids L (default ∅ E)) (concat groups)
  ∧ (1 ≤ c → concat groups = BareId <$> filter_ids L (default ∅ E)).
Proof.
  intros Hb. unfold partition_requests. cbv zeta.
  rewrite bool_decide_eq_false_2 by lia.
  intros [Hc ->]%split_seq_inv.
  destruct (decide (c = 0)) as [->|Hc0].
  - change (Z.to_nat 0) with 0%nat. rewrite split_seq_loop_zero.
    split; [constructor | lia].
  - rewrite split_seq_loop_concat by lia. split; [|done].
    apply Forall_fmap, Forall_forall. intros i Hi. by exists i.
Qed.

Lemma partition_requests_single_witness :
  Forall (λ r, ∃ i, r = BareId i ∧ i ∈ filter_ids [Some "R1"; Some "R2"] (default ∅ None))
         (concat [[BareId "R1"; BareId "R2"]])
  ∧ (1 ≤ 200 → concat [[BareId "R1"; BareId "R2"]]
               = BareId <$> filter_ids [Some "R1"; Some "R2"] (default ∅ None)).
Proof.
  apply (partition_requests_single [Some "R1"; Some "R2"] None 1 200);
    [lia | reflexivity].
Defined.

(** C2 fails as stated: with a max batch size of 1 the request produced for
    the id "A" is the string itself, not the one-element list holding it. *)
Lemma partition_requests_single_not_a_list :
  ∃ groups, partition_requests [Some "A"] None 1 40 = Ok groups
    ∧ ¬ Forall (Forall (λ r, ∃ i, r = Ids [i])) groups.
Proof.
  exists [[BareId "A"]]. split; [reflexivity|].
  intros Hall. apply Forall_cons_1 in Hall as [Hg _].
  apply Forall_cons_1 in Hg as [[i Hi] _]. discriminate Hi.
Qed.

(** C8 (as amended).  For a max batch size [b] of at least 1, every request
    produced by [partition_requests] carries at most [b] ids, and (for every
    [b]) every group holds at most [c] requests, [c] being the max concurrency
    width. *)
Theorem partition_requests_bounds (L : list (option string))
    (E : option (gset string)) (b c : Z) (groups : list (list request)) :
  1 ≤ b →
  partition_requests L E b c = Ok groups →
  Forall (λ g, Z.of_nat (length g) ≤ c
               ∧ Forall (λ r, Z.of_nat (length (request_ids r)) ≤ b) g) groups.
Proof.
  intros Hb. unfold partition_requests. cbv zeta.
  set (ids := filter_ids L (default ∅ E)).
  set (final := if bool_decide (1 < b) then _ else _).
  intros [Hc ->]%split_seq_inv.
  assert (Hfinal : Forall (λ r, Z.of_nat (length (request_ids r)) ≤ b) final).
  { subst final. case_bool_decide.
    - apply Forall_fmap, Forall_forall. intros i _. simpl.
      pose proof (slice_length ids (i * Z.to_nat b) ((i + 1) * Z.to_nat b)). nia.
    - apply Forall_fmap, Forall_forall. intros i _. simpl. lia. }
  apply Forall_forall. intros g Hg. split.
  - pose proof (split_seq_loop_length (Z.to_nat c) final) as Hlen.
    rewrite Forall_forall in Hlen. specialize (Hlen g Hg). simpl in Hlen. lia.
  - apply Forall_forall. intros r Hr.
    rewrite Forall_forall in Hfinal. apply Hfinal.
    rewrite <- (split_seq_loop_concat (Z.to_nat c) final).
    + apply list_elem_of_In, in_concat. exists g.
      by rewrite <- !list_elem_of_In.
    + destruct (decide (c = 0)) as [->|]; [|lia].
      change (Z.to_nat 0) with 0%nat in Hg.
      rewrite split_seq_loop_zero in Hg. by apply elem_of_nil in Hg.
Qed.

Lemma partition_requests_bounds_witness :
  Forall (λ g, Z.of_nat (length g) ≤ 40
               ∧ Forall (λ r, Z.of_nat (length (request_ids r)) ≤ 2) g)
         [[Ids ["A"; "B"]; Ids ["C"]]].
Proof.
  apply (partition_requests_bounds [Some "A"; Some "B"; Some "C"] None 2 40);
    [lia | reflexivity].
Defined.

(** C8 fails as stated at a max batch size of 0: the request still carries
    one id. *)
Lemma partition_requests_bounds_size_zero :
  ∃ groups, partition_requests [Some "A"] None 0 40 = Ok groups
    ∧ ¬ Forall (λ g, Forall (λ r, Z.of_nat (length (request_ids r)) ≤ 0) g) groups.
Proof.
  exists [[BareId "A"]]. split; [reflexivity|].
  intros Hall. apply Forall_cons_1 in Hall as [Hg _].
  apply Forall_cons_1 in Hg as [Hr _]. simpl in Hr. lia.
Qed.

(** ** Properties of resolution and ingestion *)

Lemma bind_Ok_inv {A B : Type} (m : result A) (k : A → result B) (b : B) :
  (m ≫= k) = Ok b → ∃ a, m = Ok a ∧ k a = Ok b.
Proof. destruct m as [a|e]; [by exists a | done]. Qed.

Section ResultFacts.
Context {A B : Type}.

Lemma for_each_app (body : A → B → result B) (l1 l2 : list A) (s : B) :
  for_each body (l1 ++ l2) s = (for_each body l1 s ≫= for_each body l2).
Proof.
  revert s. induction l1 as [|x l1 IH]; intros s; simpl; [done|].
  destruct (body x s); simpl; [apply IH | done].
Qed.

(** A property kept by every iteration that completes is kept by the loop. *)
Lemma for_each_preserves (P : B → Prop) (body : A → B → result B) (l : list A) :
  (∀ x s s', x ∈ l → body x s = Ok s' → P s → P s') →
  ∀ s s', for_each body l s = Ok s' → P s → P s'.
Proof.
  induction l as [|x l IH]; intros Hbody s s'; simpl.
  - by intros [= <-].
  - intros (s1 & Hx & Hl)%bind_Ok_inv Hs.
    eapply IH; [|done|].
    + intros y t t' Hy. apply Hbody. by right.
    + eapply Hbody; [by left|done..].
Qed.
End ResultFacts.

(** Splits an equation [(x ← m; k) = Ok b] into its steps. *)
Ltac inv_bind H :=
  let a := fresh "a" in
  let H1 := fresh H in
  apply bind_Ok_inv in H as (a & H1 & H).

Section ResolutionFacts.
Context `{RelationshipTypes, Validator, UrlLib}.

(** C5.  For a relationship record whose [parent1Facts] list is
    [[{type: uriA}, {type: uriB}]], where the two URIs derive different
    types and the one of [uriA] is not the default, [get_relationship_type]
    returns the type derived from [uriB] (the last fact wins) and logs the
    replacement diagnostic exactly once. *)
Theorem get_relationship_type_last_wins (members : list (string * json))
    (uriA uriB pathA pathB : string) (tA tB default : RelationshipType)
    (rel_id : json) :
  Py.assoc "parent1Facts" members
    = Some (JList [JObj [("type", JStr uriA)]; JObj [("type", JStr uriB)]]) →
  Py.assoc "id" members = Some rel_id →
  urlparse_path uriA = Ok pathA →
  urlparse_path uriB = Ok pathB →
  RelationshipType_call (Py.strip_slash pathA) = Some tA →
  RelationshipType_call (Py.strip_slash pathB) = Some tB →
  Py.strip_slash pathA ≠ Py.strip_slash pathB →
  tA ≠ default →
  get_relationship_type (JObj members) "parent1Facts" default
  = Ok (tB, [{| replaced := tA; replacement := Py.strip_slash pathB;
                of_relationship := rel_id; in_field := "parent1Facts" |}]).
Proof.
  intros Hfacts Hid HA HB HtA HtB Hne Hdef.
  unfold get_relationship_type. simpl. rewrite Hfacts. simpl.
  rewrite HA. simpl.
  rewrite (bool_decide_eq_false_2 (default ≠ default)) by (intros ?; done).
  simpl. rewrite HtA. simpl. rewrite HB. simpl.
  rewrite (bool_decide_eq_true_2 (tA ≠ default)) by done.
  rewrite (ne_str_other_value _ _ _ HtA Hne). simpl.
  rewrite Hid. simpl. by rewrite HtB.
Qed.

Lemma getitem_Ok_inv (v x : json) (k : string) :
  Py.getitem v k = Ok x →
  ∃ members, v = JObj members ∧ Py.assoc k members = Some x.
Proof.
  destruct v as [| | | | |members]; simpl; try done.
  destruct (Py.assoc k members) eqn:Hk; [|done].
  intros [= <-]. eauto.
Qed.

Lemma assoc_Some_truthy (k : string) (members : list (string * json)) (x : json) :
  Py.assoc k members = Some x → Py.truthy (JObj members) = true.
Proof. destruct members; [done|]. intros _. by apply bool_decide_eq_true_2. Qed.

(** What one call of [_update_relationship_info] can do to the graph. *)
Lemma update_relationship_info_inv (rel child parent : json) (fact_key : string)
    (g g' : Graph) :
  _update_relationship_info rel child parent fact_key g = Ok g' →
  (Py.truthy child && Py.truthy parent = false ∧ g' = g)
  ∨ (∃ c p t log,
       child = JStr c ∧ parent = JStr p ∧ c ≠ "" ∧ p ≠ ""
       ∧ get_relationship_type rel fact_key UNSPECIFIED_PARENT = Ok (t, log)
       ∧ g' = set_relationships <[(c, p) := t]> g).
Proof.
  unfold _update_relationship_info.
  destruct (Py.truthy child && Py.truthy parent) eqn:Htruthy.
  - intros Hup. right. inv_bind Hup. destruct a as [t log].
    inv_bind Hup. inv_bind Hup. injection Hup as <-.
    apply andb_prop in Htruthy as [Hc Hp].
    destruct child; try done. destruct parent; try done.
    simpl in *. simplify_eq.
    apply bool_decide_eq_true_1 in Hc, Hp. naive_solver.
  - intros [= <-]. by left.
Qed.

Lemma update_relationship_info_keeps (rel child parent : json) (fact_key : string)
    (g g' : Graph) :
  _update_relationship_info rel child parent fact_key g = Ok g' →
  individuals g' = individuals g ∧ frontier g' = frontier g
  ∧ cp_validator g' = cp_validator g
  ∧ ∀ k, is_Some (relationships g !! k) → is_Some (relationships g' !! k).
Proof.
  intros [[_ ->]|(c & p & t & log & _ & _ & _ & _ & _ & ->)]%update_relationship_info_inv;
    [done|].
  repeat split; try done. simpl. intros k Hk.
  destruct (decide ((c, p) = k)) as [<-|Hne].
  - rewrite lookup_insert_eq. eauto.
  - by rewrite lookup_insert_ne.
Qed.

Lemma resolve_record_keeps (rel : json) (g g' : Graph) :
  resolve_record rel g = Ok g' →
  individuals g' = individuals g ∧ frontier g' = frontier g
  ∧ cp_validator g' = cp_validator g
  ∧ ∀ k, is_Some (relationships g !! k) → is_Some (relationships g' !! k).
Proof.
  unfold resolve_record. intros Hr. do 4 inv_bind Hr.
  apply update_relationship_info_keeps in Hr3 as (Hi1 & Hf1 & Hv1 & Hk1).
  apply update_relationship_info_keeps in Hr as (Hi2 & Hf2 & Hv2 & Hk2).
  rewrite Hi2, Hf2, Hv2. naive_solver.
Qed.

Lemma for_each_resolve_record_keeps (rels : list json) (g g' : Graph) :
  for_each resolve_record rels g = Ok g' →
  individuals g' = individuals g ∧ frontier g' = frontier g
  ∧ cp_validator g' = cp_validator g
  ∧ ∀ k, is_Some (relationships g !! k) → is_Some (relationships g' !! k).
Proof.
  intros Hloop.
  apply (for_each_preserves
           (λ s, individuals s = individuals g ∧ frontier s = frontier g
                 ∧ cp_validator s = cp_validator g
                 ∧ ∀ k, is_Some (relationships g !! k)
                        → is_Some (relationships s !! k))
           resolve_record rels) with (s := g); [|done|done].
  intros rel s s' _ (Hi & Hf & Hv & Hk)%resolve_record_keeps (Hi' & Hf' & Hv' & Hg).
  rewrite Hi, Hf, Hv. naive_solver.
Qed.

(** Relationship resolution touches nothing but the relationship map, and
    removes no edge from it. *)
Lemma process_relationship_result_keeps (data : json) (g g' : Graph) :
  process_relationship_result data g = Ok g' →
  individuals g' = individuals g ∧ frontier g' = frontier g
  ∧ cp_validator g' = cp_validator g
  ∧ ∀ k, is_Some (relationships g !! k) → is_Some (relationships g' !! k).
Proof.
  unfold process_relationship_result.
  destruct (Py.truthy data); [|by intros [= <-]].
  intros Hp. inv_bind Hp. destruct a; [|by injection Hp as <-].
  do 2 inv_bind Hp. by apply for_each_resolve_record_keeps in Hp.
Qed.

(** What [resolve_record] writes for a parent slot that is present. *)
Lemma resolve_record_writes (rel v1 v2 : json) (g g' : Graph) (c p : string) :
  resourceId_or_None rel "child" = Ok (JStr c) →
  resourceId_or_None rel "parent1" = Ok v1 →
  resourceId_or_None rel "parent2" = Ok v2 →
  c ≠ "" → p ≠ "" →
  v1 = JStr p ∨ v2 = JStr p →
  resolve_record rel g = Ok g' →
  ∃ t log,
    relationships g' !! (c, p) = Some t
    ∧ ((v2 = JStr p
        ∧ get_relationship_type rel "parent2Facts" UNSPECIFIED_PARENT = Ok (t, log))
       ∨ (v2 ≠ JStr p
          ∧ get_relationship_type rel "parent1Facts" UNSPECIFIED_PARENT = Ok (t, log))).
Proof.
  intros Hc Hp1 Hp2 Hcne Hpne Hslot. unfold resolve_record.
  rewrite Hp1, Hp2, Hc. simpl. intros Hr. inv_bind Hr. rename a into g1.
  apply update_relationship_info_inv in Hr0, Hr.
  assert (Hv2 : v2 = JStr p ∨ v2 ≠ JStr p).
  { destruct v2 as [| | |s| |]; try (right; discriminate).
    destruct (decide (s = p)) as [->|]; [by left | right; congruence]. }
  destruct Hv2 as [->|Hv2].
  - destruct Hr as [[Hf _]|(c' & p' & t & log & ? & ? & _ & _ & Ht & ->)].
    { simpl in Hf. rewrite !bool_decide_eq_true_2 in Hf by done. done. }
    simplify_eq. exists t, log. simpl. rewrite lookup_insert_eq. eauto.
  - destruct Hslot as [->|]; [|done].
    destruct Hr0 as [[Hf _]|(c' & p' & t & log & ? & ? & _ & _ & Ht & ->)].
    { simpl in Hf. rewrite !bool_decide_eq_true_2 in Hf by done. done. }
    simplify_eq. exists t, log. split; [|by right].
    destruct Hr as [[_ ->]|(c2 & p2 & t2 & log2 & ? & -> & _ & _ & _ & ->)].
    + simpl. by rewrite lookup_insert_eq.
    + simplify_eq. simpl. rewrite lookup_insert_ne by congruence.
      by rewrite lookup_insert_eq.
Qed.

(** C10.  For every record of a relationship-resolution response in which
    the child and a parent slot both carry a resourceId (and pass the test
    [if child and parent]), [process_relationship_result] stores the type
    resolved from that record at the key (child, parent) when it comes to the
    record, whatever the relationship map held before: no edge need exist
    for the pair, and one exists afterwards.  (When both slots name the same
    parent the type of [parent2Facts], written last, is the one stored.) *)
Theorem process_relationship_result_writes_edge (data recs rel v1 v2 : json)
    (pre post : list json) (g g' : Graph) (c p : string) :
  Py.getitem data "childAndParentsRelationships" = Ok recs →
  Py.iter recs = Ok (pre ++ rel :: post) →
  resourceId_or_None rel "child" = Ok (JStr c) →
  resourceId_or_None rel "parent1" = Ok v1 →
  resourceId_or_None rel "parent2" = Ok v2 →
  c ≠ "" → p ≠ "" →
  v1 = JStr p ∨ v2 = JStr p →
  process_relationship_result data g = Ok g' →
  ∃ g1 g2 t log,
    for_each resolve_record pre g = Ok g1
    ∧ resolve_record rel g1 = Ok g2
    ∧ for_each resolve_record post g2 = Ok g'
    ∧ relationships g2 !! (c, p) = Some t
    ∧ ((v2 = JStr p
        ∧ get_relationship_type rel "parent2Facts" UNSPECIFIED_PARENT = Ok (t, log))
       ∨ (v2 ≠ JStr p
          ∧ get_relationship_type rel "parent1Facts" UNSPECIFIED_PARENT = Ok (t, log)))
    ∧ is_Some (relationships g' !! (c, p)).
Proof.
  intros Hrecs Hiter Hc Hp1 Hp2 Hcne Hpne Hslot.
  unfold process_relationship_result.
  destruct (getitem_Ok_inv _ _ _ Hrecs) as (members & -> & Hassoc).
  rewrite (assoc_Some_truthy _ _ _ Hassoc). simpl.
  rewrite Hassoc. rewrite bool_decide_eq_true_2 by eauto. simpl.
  rewrite Hiter. simpl. rewrite for_each_app. intros Hloop.
  inv_bind Hloop. rename a into g1. simpl in Hloop.
  inv_bind Hloop. rename a into g2.
  destruct (resolve_record_writes rel v1 v2 g1 g2 c p) as (t & log & Ht & Hfrom);
    try done.
  exists g1, g2, t, log. repeat split; try done.
  apply for_each_resolve_record_keeps in Hloop as (_ & _ & _ & Hk).
  apply Hk. eauto.
Qed.
End ResolutionFacts.

Section IngestionFacts.
Context `{RelationshipTypes, Validator}.
Implicit Types (g : Graph) (P : update → Prop).

Lemma apply_updates_app (us1 us2 : list update) g :
  apply_updates (us1 ++ us2) g = apply_updates us2 (apply_updates us1 g).
Proof. apply foldl_app. Qed.

Lemma performs_ext P (f f' : Graph → result Graph) :
  (∀ g, f g = f' g) → performs P f → performs P f'.
Proof.
  intros Hff' [[e He]|(us & Hus & Hf)]; [left|right].
  - exists e. intros g. by rewrite <- Hff'.
  - exists us. split; [done|]. intros g. by rewrite <- Hff'.
Qed.

Lemma performs_Ok P : performs P Ok.
Proof. right. exists []. by split; [constructor|]. Qed.

Lemma performs_update P (u : update) :
  P u → performs P (λ g, Ok (apply_update u g)).
Proof. intros Hu. right. exists [u]. split; [by repeat constructor | done]. Qed.

Lemma performs_bind {X} P (m : result X) (k : X → Graph → result Graph) :
  (∀ x, m = Ok x → performs P (k x)) → performs P (λ g, x ← m; k x g).
Proof.
  destruct m as [x|e]; simpl; intros Hk.
  - by apply Hk.
  - left. by exists e.
Qed.

Lemma performs_seq P (f1 f2 : Graph → result Graph) :
  performs P f1 → performs P f2 → performs P (λ g, g1 ← f1 g; f2 g1).
Proof.
  intros [[e He]|(us1 & Hus1 & Hf1)] Hf2.
  { left. exists e. intros g. by rewrite He. }
  destruct Hf2 as [[e He]|(us2 & Hus2 & Hf2)].
  { left. exists e. intros g. rewrite Hf1. simpl. apply He. }
  right. exists (us1 ++ us2). split; [by apply Forall_app|].
  intros g. rewrite Hf1. simpl. by rewrite Hf2, apply_updates_app.
Qed.

Lemma performs_for_each {X} P (body : X → Graph → result Graph) (l : list X) :
  (∀ x, x ∈ l → performs P (body x)) → performs P (for_each body l).
Proof.
  induction l as [|x l IH]; intros Hbody.
  - apply performs_Ok.
  - apply (performs_seq P (body x) (for_each body l)).
    + apply Hbody. by left.
    + apply IH. intros y Hy. apply Hbody. by right.
Qed.

Lemma ingest_person_performs (hop_count : Z) (entries : list json) (e : json) :
  e ∈ entries →
  performs (from_entries hop_count entries) (ingest_person hop_count e).
Proof.
  intros He. unfold ingest_person.
  apply (performs_bind _ (Py.getitem e "id")). intros v Hv.
  apply (performs_bind _ (Py.as_id v)). intros i Hi.
  apply (performs_update _ (SetIndividual i (individual_of i hop_count e))).
  exists e. split; [done|]. split; [|done].
  unfold person_id. by rewrite Hv.
Qed.

Lemma process_parent_child_performs P (key : string) (data : json)
    (child : string) (rel_id : json) :
  (∀ u, (∀ i ind, u ≠ SetIndividual i ind) → P u) →
  performs P (λ g, _process_parent_child key data g child rel_id).
Proof.
  intros HP. unfold _process_parent_child.
  apply (performs_bind _ (Py.contains key data)). intros [|] _;
    [|apply performs_Ok].
  apply (performs_bind _ (Py.getitem data key)). intros slot _.
  apply (performs_bind _ (Py.getitem slot "resourceId")). intros parent _.
  apply (performs_bind _ (Py.as_id parent)). intros p _.
  apply (performs_bind _ (Py.as_id rel_id)). intros r _.
  right. exists [AddToFrontier p; AddEdge child p; Report child p r].
  split; [|done]. repeat constructor; by apply HP.
Qed.

Lemma ingest_relationship_performs P (relationship : json) :
  (∀ u, (∀ i ind, u ≠ SetIndividual i ind) → P u) →
  performs P (ingest_relationship relationship).
Proof.
  intros HP. unfold ingest_relationship.
  apply (performs_bind _ (Py.getitem relationship "id")). intros rel_id _.
  apply (performs_bind _ (Py.getitem relationship "child")). intros c _.
  apply (performs_bind _ (Py.getitem c "resourceId")). intros child _.
  apply (performs_bind _ (Py.as_id child)). intros ch _.
  apply (performs_seq P
           (λ g, _process_parent_child "parent1" relationship
                   (add_to_frontier ch g) ch rel_id)
           (λ g, _process_parent_child "parent2" relationship g ch rel_id));
    [|by apply process_parent_child_performs].
  apply (performs_seq P (λ g, Ok (apply_update (AddToFrontier ch) g))
           (λ g, _process_parent_child "parent1" relationship g ch rel_id));
    [|by apply process_parent_child_performs].
  apply performs_update, HP. done.
Qed.

(** Whether [process_persons_result] raises, and the updates it makes, are
    fixed by the response and the hop depth, not by the graph; the
    individuals it sets are the records of the person entries. *)
Lemma process_persons_result_performs (data : json) (hop_count : Z) :
  performs (from_entries hop_count (person_entries data))
           (λ g, process_persons_result data g hop_count).
Proof.
  unfold process_persons_result.
  destruct (Py.truthy data); [|apply performs_Ok].
  unfold person_entries.
  apply (performs_bind _ (Py.getitem data "persons")). intros persons ->.
  apply (performs_bind _ (Py.iter persons)). intros entries Hentries.
  simpl. rewrite Hentries.
  apply (performs_seq _ (for_each (ingest_person hop_count) entries)).
  { apply performs_for_each. intros e He. by apply ingest_person_performs. }
  apply (performs_bind _ (Py.contains "childAndParentsRelationships" data)).
  intros [|] _; [|apply performs_Ok].
  apply (performs_bind _ (Py.getitem data "childAndParentsRelationships")).
  intros rels _.
  apply (performs_bind _ (Py.iter rels)). intros records _.
  apply performs_for_each. intros r _.
  apply ingest_relationship_performs. intros [] Hu; simpl; try done.
  by destruct (Hu i ind).
Qed.

Lemma performs_Ok_inv P (f : Graph → result Graph) g g' :
  performs P f → f g = Ok g' →
  ∃ us, Forall P us ∧ ∀ g0, f g0 = Ok (apply_updates us g0).
Proof.
  intros [[e He]|Hus] Hg; [|done]. rewrite He in Hg. discriminate.
Qed.

(** *** What the updates do to the individuals *)

Lemma individuals_apply_update (u : update) g :
  individuals (apply_update u g)
  = match u with
    | SetIndividual i ind => <[i := ind]> (individuals g)
    | _ => individuals g
    end.
Proof. by destruct u. Qed.

Lemma individuals_apply_updates_is_Some (us : list update) g (i : string) :
  is_Some (individuals g !! i) →
  is_Some (individuals (apply_updates us g) !! i).
Proof.
  revert g. induction us as [|u us IH]; intros g Hi; [done|].
  apply IH. rewrite individuals_apply_update. destruct u; try done.
  destruct (decide (i0 = i)) as [->|].
  - rewrite lookup_insert_eq. eauto.
  - by rewrite lookup_insert_ne.
Qed.

Lemma individuals_apply_updates_other (us : list update) g (i : string) :
  Forall (λ u, ∀ ind, u ≠ SetIndividual i ind) us →
  individuals (apply_updates us g) !! i = individuals g !! i.
Proof.
  revert g. induction us as [|u us IH]; intros g Hus; [done|].
  apply Forall_cons_1 in Hus as [Hu Hus]. simpl.
  change (foldl _ ?g0 us) with (apply_updates us g0).
  rewrite IH by done. rewrite individuals_apply_update.
  destruct u; try done.
  apply lookup_insert_ne. intros ->. by destruct (Hu ind).
Qed.

(** *** Updates that can be swapped *)

Section Commute.
Hypothesis cp_add_comm : ∀ v c p r c' p' r',
  cp_add (cp_add v c p r) c' p' r' = cp_add (cp_add v c' p' r') c p r.

Lemma apply_update_comm (u1 u2 : update) g :
  compatible u1 u2 →
  apply_update u1 (apply_update u2 g) = apply_update u2 (apply_update u1 g).
Proof.
  destruct g as [inds fr rels v].
  destruct u1 as [i a|i|c p|c p r], u2 as [j b|j|c' p'|c' p' r'];
    intros Hcompat; try reflexivity;
    unfold apply_update, add_to_frontier, add_parent_child_relationship,
      set_individuals, set_frontier, set_relationships, set_cp_validator;
    simpl; f_equal.
  - destruct Hcompat as [Hne| ->].
    + by apply insert_insert_ne.
    + destruct (decide (i = j)) as [->|]; [done | by apply insert_insert_ne].
  - apply set_eq. intros x. rewrite !elem_of_union. tauto.
  - destruct (decide ((c, p) = (c', p'))) as [[= -> ->]|Hne].
    { destruct (rels !! (c', p')) eqn:Hl; rewrite ?Hl, ?lookup_insert_eq; done. }
    destruct (rels !! (c', p')) eqn:Hl', (rels !! (c, p)) eqn:Hl;
      rewrite ?Hl, ?Hl', ?lookup_insert_ne, ?Hl, ?Hl' by done; try done.
    by apply insert_insert_ne.
  - apply cp_add_comm.
Qed.

Lemma apply_update_updates_comm (u : update) (us : list update) g :
  Forall (compatible u) us →
  apply_update u (apply_updates us g) = apply_updates us (apply_update u g).
Proof.
  revert g. induction us as [|u' us IH]; intros g Hus; [done|].
  apply Forall_cons_1 in Hus as [Hu Hus]. simpl.
  change (foldl _ ?g0 us) with (apply_updates us g0).
  rewrite IH by done. f_equal. by apply apply_update_comm.
Qed.

Lemma apply_updates_comm (us1 us2 : list update) g :
  Forall (λ u1, Forall (compatible u1) us2) us1 →
  apply_updates us2 (apply_updates us1 g)
  = apply_updates us1 (apply_updates us2 g).
Proof.
  revert g. induction us1 as [|u us1 IH]; intros g Hus; [done|].
  apply Forall_cons_1 in Hus as [Hu Hus]. simpl.
  change (foldl _ ?g0 us1) with (apply_updates us1 g0).
  rewrite IH by done. f_equal. symmetry. by apply apply_update_updates_comm.
Qed.

(** C4 (as amended).  Two persons-list responses ingested at the same
    hop depth commute when the person entries they share an id on are the
    same entry (and the validator does not depend on the order of the
    reports made to it): if ingesting R1 and then R2 completes, so does
    ingesting R2 and then R1, with the same final graph (individuals,
    frontier, relationships and validator). *)
Theorem process_persons_result_commute (R1 R2 : json) (g g1 g12 : Graph)
    (hop_count : Z) :
  (∀ e1 e2 i, e1 ∈ person_entries R1 → e2 ∈ person_entries R2 →
              person_id e1 = Ok i → person_id e2 = Ok i → e1 = e2) →
  process_persons_result R1 g hop_count = Ok g1 →
  process_persons_result R2 g1 hop_count = Ok g12 →
  ∃ g2, process_persons_result R2 g hop_count = Ok g2
        ∧ process_persons_result R1 g2 hop_count = Ok g12.
Proof.
  intros Hshared Hg1 Hg12.
  destruct (performs_Ok_inv _ _ _ _
              (process_persons_result_performs R1 hop_count) Hg1)
    as (us1 & Hus1 & HR1).
  destruct (performs_Ok_inv _ _ _ _
              (process_persons_result_performs R2 hop_count) Hg12)
    as (us2 & Hus2 & HR2).
  exists (apply_updates us2 g). split; [apply HR2|].
  rewrite HR1. f_equal.
  rewrite HR1 in Hg1. injection Hg1 as <-.
  rewrite HR2 in Hg12. injection Hg12 as <-.
  symmetry. apply apply_updates_comm.
  rewrite Forall_forall in Hus1, Hus2.
  apply Forall_forall. intros u1 Hu1. apply Forall_forall. intros u2 Hu2.
  specialize (Hus1 u1 Hu1). specialize (Hus2 u2 Hu2).
  destruct u1 as [i a| | |], u2 as [j b| | |]; try done. simpl.
  destruct (decide (i = j)) as [->|]; [right | by left].
  destruct Hus1 as (e1 & He1 & Hi1 & ->), Hus2 as (e2 & He2 & Hi2 & ->).
  by rewrite (Hshared e1 e2 j).
Qed.
End Commute.

(** *** Ingesting the person entries *)

Lemma ingest_person_Ok (hop_count : Z) (members : list (string * json))
    (i : string) g :
  Py.assoc "id" members = Some (JStr i) →
  ingest_person hop_count (JObj members) g
  = Ok (set_individuals <[i := individual_of i hop_count (JObj members)]> g).
Proof. intros Hid. unfold ingest_person. simpl. by rewrite Hid. Qed.

Lemma ingest_person_inv (hop_count : Z) (e : json) g g' :
  ingest_person hop_count e g = Ok g' →
  ∃ i, person_id e = Ok i
       ∧ g' = set_individuals <[i := individual_of i hop_count e]> g.
Proof.
  unfold ingest_person, person_id. intros Hp. do 2 inv_bind Hp.
  injection Hp as <-. exists a0. by rewrite Hp0.
Qed.

Lemma for_each_ingest_person_keeps (hop_count : Z) (entries : list json) g g' :
  for_each (ingest_person hop_count) entries g = Ok g' →
  frontier g' = frontier g ∧ relationships g' = relationships g
  ∧ cp_validator g' = cp_validator g.
Proof.
  intros Hloop.
  apply (for_each_preserves
           (λ s, frontier s = frontier g ∧ relationships s = relationships g
                 ∧ cp_validator s = cp_validator g)
           (ingest_person hop_count) entries) with (s := g); [|done|done].
  intros e s s' _ (i & _ & ->)%ingest_person_inv. done.
Qed.

(** C6 (as amended).  A persons-list response that is empty (a falsy
    document) is nothing to ingest: the call returns the graph as it was.  A
    response without a relationship section is no error either: once its
    person entries are ingested the call returns, and the frontier, the
    relationships and the validator are as before.  A non-empty response
    without a person section is not treated so: [data["persons"]] raises
    [KeyError]. *)
Theorem process_persons_result_missing_section (data : json) g (hop_count : Z) :
  (Py.truthy data = false → process_persons_result data g hop_count = Ok g)
  ∧ (∀ members persons entries g1,
       data = JObj members →
       Py.assoc "childAndParentsRelationships" members = None →
       Py.assoc "persons" members = Some persons →
       Py.iter persons = Ok entries →
       for_each (ingest_person hop_count) entries g = Ok g1 →
       process_persons_result data g hop_count = Ok g1
       ∧ frontier g1 = frontier g ∧ relationships g1 = relationships g
       ∧ cp_validator g1 = cp_validator g)
  ∧ (∀ members,
       data = JObj members → Py.truthy data = true →
       Py.assoc "persons" members = None →
       process_persons_result data g hop_count = Raise (KeyError "persons")).
Proof.
  unfold process_persons_result. split; [by intros ->|]. split.
  - intros members persons entries g1 -> Hrel Hpersons Hentries Hloop.
    rewrite (assoc_Some_truthy _ _ _ Hpersons). simpl.
    rewrite Hpersons. simpl. rewrite Hentries. simpl. rewrite Hloop. simpl.
    rewrite Hrel. rewrite bool_decide_eq_false_2 by (by intros [? ?]).
    split; [done|]. by apply for_each_ingest_person_keeps in Hloop.
  - intros members -> -> Hpersons. simpl. by rewrite Hpersons.
Qed.

(** C7.  A persons-list response with two person entries (of two ids new to
    the graph) and one relationship entry that names a child and a parent1
    but no parent2 is ingested at hop depth [hop_count] as follows: the two
    individuals, and no other, are created, each tagged with [hop_count];
    the child id and the parent id are added to the frontier; the edge
    (child, parent), new to the graph, is held with the unspecified type;
    the triple is reported once to the validator. *)
Theorem process_persons_result_two_persons_one_parent
    (md m1 m2 mr : list (string * json)) (child_slot parent_slot : json)
    (i1 i2 rel_id c p : string) g (hop_count : Z) :
  Py.assoc "persons" md = Some (JList [JObj m1; JObj m2]) →
  Py.assoc "childAndParentsRelationships" md = Some (JList [JObj mr]) →
  Py.assoc "id" m1 = Some (JStr i1) →
  Py.assoc "id" m2 = Some (JStr i2) →
  Py.assoc "id" mr = Some (JStr rel_id) →
  Py.assoc "child" mr = Some child_slot →
  Py.getitem child_slot "resourceId" = Ok (JStr c) →
  Py.assoc "parent1" mr = Some parent_slot →
  Py.getitem parent_slot "resourceId" = Ok (JStr p) →
  Py.assoc "parent2" mr = None →
  i1 ≠ i2 →
  individuals g !! i1 = None →
  individuals g !! i2 = None →
  relationships g !! (c, p) = None →
  ∃ g', process_persons_result (JObj md) g hop_count = Ok g'
    ∧ individuals g'
      = <[i2 := {| fid := i2; hop := hop_count; payload := JObj m2 |}]>
          (<[i1 := {| fid := i1; hop := hop_count; payload := JObj m1 |}]>
             (individuals g))
    ∧ size (individuals g') = S (S (size (individuals g)))
    ∧ frontier g' = frontier g ∪ {[c]} ∪ {[p]}
    ∧ relationships g' = <[(c, p) := UNSPECIFIED_PARENT]> (relationships g)
    ∧ cp_validator g' = cp_add (cp_validator g) c p rel_id.
Proof.
  intros Hpersons Hrels Hid1 Hid2 Hrid Hchild Hc Hparent Hp Hno2 Hne Hnew1 Hnew2
    Hedge.
  unfold process_persons_result.
  rewrite (assoc_Some_truthy _ _ _ Hpersons). simpl.
  rewrite Hpersons. simpl.
  rewrite (ingest_person_Ok _ _ _ _ Hid1). simpl.
  rewrite (ingest_person_Ok _ _ _ _ Hid2). simpl.
  rewrite Hrels. rewrite bool_decide_eq_true_2 by eauto. simpl.
  unfold ingest_relationship. simpl. rewrite Hrid, Hchild. simpl.
  rewrite Hc. simpl.
  unfold _process_parent_child. simpl. rewrite Hparent.
  rewrite (bool_decide_eq_true_2 (is_Some (Some parent_slot))) by eauto.
  simpl. rewrite Hp. simpl.
  rewrite Hno2. rewrite bool_decide_eq_false_2 by (by intros [? ?]). simpl.
  eexists. split; [done|]. simpl. rewrite Hedge.
  repeat split; try done.
  rewrite !map_size_insert_None; [done..|].
  - by rewrite lookup_insert_ne.
Qed.
End IngestionFacts.

Section IndividualFacts.
Context `{RelationshipTypes, Validator, UrlLib}.

(** C9 (as amended).  An individual is never deleted, and no ingestion
    touches the record of a known id unless the ingested persons-list
    response itself carries a person entry with that id: after
    [process_persons_result] the id is still known, and its record is the
    same whenever no person entry of the response has that id;
    [process_relationship_result] leaves every record as it is. *)
Theorem individuals_kept (g : Graph) (i : string) (ind : Individual) :
  individuals g !! i = Some ind →
  (∀ data hop_count g',
     process_persons_result data g hop_count = Ok g' →
     is_Some (individuals g' !! i)
     ∧ ((∀ e, e ∈ person_entries data → person_id e ≠ Ok i) →
        individuals g' !! i = Some ind))
  ∧ (∀ data g',
       process_relationship_result data g = Ok g' →
       individuals g' !! i = Some ind).
Proof.
  intros Hi. split.
  - intros data hop_count g' Hg'.
    destruct (performs_Ok_inv _ _ _ _
                (process_persons_result_performs data hop_count) Hg')
      as (us & Hus & Hdata).
    rewrite Hdata in Hg'. injection Hg' as <-. split.
    + apply individuals_apply_updates_is_Some. eauto.
    + intros Hfresh. rewrite individuals_apply_updates_other; [done|].
      eapply Forall_impl; [exact Hus|].
      intros u Hu ind' ->. destruct Hu as (e & He & Hid & _).
      by apply (Hfresh e).
  - intros data g' (-> & _)%process_relationship_result_keeps. done.
Qed.
End IndividualFacts.

(** ** Properties of the hop driver *)

Section HopFacts.
Context `{RelationshipTypes, Validator, UrlLib, Transport, Formatting}.
Context `{!Resolution}.

(** A property of the graph kept by the processing of every document is
    kept by a group of requests. *)
Lemma run_until_complete_preserves (P : Graph → Prop) (loop : EventLoop)
    (process : json → Graph → result Graph) (paths : list string)
    (s s' : Session) (g g' : Graph) :
  (∀ data g1 g2, process data g1 = Ok g2 → P g1 → P g2) →
  run_until_complete loop process paths (s, g) = Ok (s', g') →
  P g → P g'.
Proof.
  intros Hprocess. unfold run_until_complete.
  destruct (issue paths s) as [s1 responses].
  intros Hrun. inv_bind Hrun. injection Hrun as _ <-.
  eapply for_each_preserves; [|exact Hrun0].
  intros response g1 g2 _ Hstep. inv_bind Hstep. by eapply Hprocess.
Qed.

Lemma resolve_relationships_keeps (rel_ids : list (option string))
    (loop : EventLoop) (s s' : Session) (g g' : Graph) :
  resolve_relationships rel_ids loop (s, g) = Ok (s', g') →
  individuals g' = individuals g ∧ frontier g' = frontier g.
Proof.
  unfold resolve_relationships. intros Hres. inv_bind Hres.
  change (individuals (s', g').2 = individuals g
          ∧ frontier (s', g').2 = frontier g).
  eapply (for_each_preserves
            (λ st : Session * Graph,
               individuals st.2 = individuals g ∧ frontier st.2 = frontier g));
    [|exact Hres|done].
  intros requests [s1 g1] [s2 g2] _ Hgroup. simpl.
  eapply (run_until_complete_preserves
            (λ g0, individuals g0 = individuals g ∧ frontier g0 = frontier g));
    [|exact Hgroup].
  intros data ga gb (Hi & Hf & _)%process_relationship_result_keeps [<- <-].
  done.
Qed.

(** C3.  Whenever [process_hop] returns, the frontier and the ids of the
    known individuals are disjoint. *)
Theorem process_hop_frontier_disjoint (hop_count : Z) (loop : EventLoop)
    (strict_resolve : bool) (s s' : Session) (g g' : Graph) :
  process_hop hop_count loop strict_resolve (s, g) = Ok (s', g') →
  frontier g' ∩ dom (individuals g') = ∅.
Proof.
  unfold process_hop. intros Hhop. inv_bind Hhop. destruct a as [s1 g1].
  apply resolve_relationships_keeps in Hhop as [-> ->]. simpl.
  apply set_eq. intros x. rewrite elem_of_intersection, elem_of_difference.
  rewrite elem_of_empty. tauto.
Qed.
End HopFacts.

(** ** The theorems at work on the sample environment *)

Lemma get_relationship_type_last_wins_witness :
  get_relationship_type (JObj Sample.two_facts) "parent1Facts"
                        Sample.UnspecifiedParentType
  = Ok (Sample.StepParent,
        [{| replaced := Sample.BiologicalParent; replacement := "StepParent";
            of_relationship := JStr "R1"; in_field := "parent1Facts" |}]).
Proof.
  apply (get_relationship_type_last_wins (H := Sample.relationship_types)
           Sample.two_facts
           "http://gedcomx.org/BiologicalParent" "http://gedcomx.org/StepParent"
           "/BiologicalParent" "/StepParent"
           Sample.BiologicalParent Sample.StepParent Sample.UnspecifiedParentType
           (JStr "R1"));
    [reflexivity | reflexivity | reflexivity | reflexivity | reflexivity
    | reflexivity | discriminate | discriminate].
Defined.

Lemma process_relationship_result_writes_edge_witness :
  ∃ g1 g2 t log,
    for_each resolve_record [] Sample.empty_graph = Ok g1
    ∧ resolve_record (JObj Sample.two_facts) g1 = Ok g2
    ∧ for_each resolve_record [] g2
      = Ok (Sample.graph_of
              (process_relationship_result
                 (JObj [("childAndParentsRelationships",
                         JList [JObj Sample.two_facts])])
                 Sample.empty_graph))
    ∧ relationships g2 !! ("A", "B") = Some t
    ∧ ((JNull = JStr "B"
        ∧ get_relationship_type (JObj Sample.two_facts) "parent2Facts"
                                UNSPECIFIED_PARENT = Ok (t, log))
       ∨ (JNull ≠ JStr "B"
          ∧ get_relationship_type (JObj Sample.two_facts) "parent1Facts"
                                  UNSPECIFIED_PARENT = Ok (t, log)))
    ∧ is_Some (relationships
                 (Sample.graph_of
                    (process_relationship_result
                       (JObj [("childAndParentsRelationships",
                               JList [JObj Sample.two_facts])])
                       Sample.empty_graph)) !! ("A", "B")).
Proof.
  apply (process_relationship_result_writes_edge
           (H := Sample.relationship_types)
           (JObj [("childAndParentsRelationships", JList [JObj Sample.two_facts])])
           (JList [JObj Sample.two_facts]) (JObj Sample.two_facts)
           (JStr "B") JNull [] [] Sample.empty_graph _ "A" "B");
    [reflexivity | reflexivity | reflexivity | reflexivity | reflexivity
    | discriminate | discriminate | by left | reflexivity].
Defined.

Lemma process_hop_frontier_disjoint_witness :
  process_hop 0 Sample.loop false (0%nat, Sample.seed_graph) = Ok Sample.after_hop
  ∧ frontier Sample.after_hop.2 ∩ dom (individuals Sample.after_hop.2) = ∅.
Proof.
  split; [reflexivity|].
  apply (process_hop_frontier_disjoint (H := Sample.relationship_types)
           (H0 := Sample.validator) (H2 := Sample.transport)
           0 Sample.loop false
           0%nat Sample.after_hop.1 Sample.seed_graph Sample.after_hop.2).
  reflexivity.
Defined.

Lemma sample_cp_add_comm :
  ∀ (v : gset (string * string * string)) (c p r c' p' r' : string),
    cp_add (cp_add v c p r) c' p' r' = cp_add (cp_add v c' p' r') c p r.
Proof.
  intros. simpl. apply set_eq. intros x. rewrite !elem_of_union. tauto.
Qed.

Lemma process_persons_result_commute_witness :
  ∃ g2, process_persons_result (Sample.family "C" "B" "R2") Sample.empty_graph 0
        = Ok g2
        ∧ process_persons_result (Sample.family "A" "B" "R1") g2 0
          = Ok (Sample.graph_of
                  (process_persons_result (Sample.family "C" "B" "R2")
                     (Sample.graph_of
                        (process_persons_result (Sample.family "A" "B" "R1")
                                                Sample.empty_graph 0)) 0)).
Proof.
  apply (process_persons_result_commute (H := Sample.relationship_types)
           (H0 := Sample.validator) sample_cp_add_comm
           (Sample.family "A" "B" "R1") (Sample.family "C" "B" "R2")
           Sample.empty_graph
           (Sample.graph_of
              (process_persons_result (Sample.family "A" "B" "R1")
                                      Sample.empty_graph 0))).
  - intros e1 e2 i He1 He2.
    change (e1 ∈ [Sample.person "A"]) in He1.
    change (e2 ∈ [Sample.person "C"]) in He2.
    apply list_elem_of_singleton in He1 as ->.
    apply list_elem_of_singleton in He2 as ->.
    intros [= <-] [=].
  - reflexivity.
  - reflexivity.
Defined.

(** C4 fails as stated: two responses that describe the person "A"
    differently leave the description ingested last, so the final graph
    depends on the order. *)
Lemma process_persons_result_order_matters :
  ∃ g12 g21,
    (process_persons_result (Sample.named "A" "x") Sample.empty_graph 0
       ≫= λ g, process_persons_result (Sample.named "A" "y") g 0) = Ok g12
    ∧ (process_persons_result (Sample.named "A" "y") Sample.empty_graph 0
         ≫= λ g, process_persons_result (Sample.named "A" "x") g 0) = Ok g21
    ∧ g12 ≠ g21.
Proof.
  eexists _, _. split; [reflexivity|]. split; [reflexivity|].
  intros Heq.
  apply (f_equal (λ g, payload <$> individuals g !! "A")) in Heq.
  vm_compute in Heq. discriminate Heq.
Qed.

Lemma process_persons_result_missing_section_witness :
  (Py.truthy JNull = false
   → process_persons_result JNull Sample.empty_graph 0 = Ok Sample.empty_graph)
  ∧ (process_persons_result (Sample.named "A" "x") Sample.empty_graph 0
     = Ok (set_individuals
             <["A" := individual_of "A" 0
                        (JObj [("id", JStr "A"); ("name", JStr "x")])]>
             Sample.empty_graph)
     ∧ frontier (set_individuals
                   <["A" := individual_of "A" 0
                              (JObj [("id", JStr "A"); ("name", JStr "x")])]>
                   Sample.empty_graph) = frontier Sample.empty_graph
     ∧ relationships (set_individuals
                        <["A" := individual_of "A" 0
                                   (JObj [("id", JStr "A"); ("name", JStr "x")])]>
                        Sample.empty_graph) = relationships Sample.empty_graph
     ∧ cp_validator (set_individuals
                       <["A" := individual_of "A" 0
                                  (JObj [("id", JStr "A"); ("name", JStr "x")])]>
                       Sample.empty_graph) = cp_validator Sample.empty_graph)
  ∧ process_persons_result (JObj [("childAndParentsRelationships", JList [])])
                           Sample.empty_graph 0
    = Raise (KeyError "persons").
Proof.
  split; [|split].
  - apply (process_persons_result_missing_section (H := Sample.relationship_types)
             (H0 := Sample.validator) JNull Sample.empty_graph 0).
  - apply (proj1 (proj2 (process_persons_result_missing_section
                           (H := Sample.relationship_types)
                           (H0 := Sample.validator)
                           (Sample.named "A" "x") Sample.empty_graph 0))
             [("persons", JList [JObj [("id", JStr "A"); ("name", JStr "x")]])]
             (JList [JObj [("id", JStr "A"); ("name", JStr "x")]])
             [JObj [("id", JStr "A"); ("name", JStr "x")]]);
      reflexivity.
  - apply (proj2 (proj2 (process_persons_result_missing_section
                           (H := Sample.relationship_types)
                           (H0 := Sample.validator)
                           (JObj [("childAndParentsRelationships", JList [])])
                           Sample.empty_graph 0))
             [("childAndParentsRelationships", JList [])]);
      reflexivity.
Defined.

(** C6 fails as stated: a response that has a relationship section and no
    person section is not ingested; the call raises [KeyError]. *)
Lemma process_persons_result_no_persons_raises :
  Py.assoc "persons" [("childAndParentsRelationships", JList [])] = None
  ∧ process_persons_result (JObj [("childAndParentsRelationships", JList [])])
                           Sample.empty_graph 0
    = Raise (KeyError "persons").
Proof. split; reflexivity. Qed.

Lemma process_persons_result_two_persons_one_parent_witness :
  ∃ g', process_persons_result
          (JObj [("persons", JList [Sample.person "A"; Sample.person "B"]);
                 ("childAndParentsRelationships",
                  JList [JObj Sample.two_facts])])
          Sample.empty_graph 3 = Ok g'
    ∧ individuals g'
      = <["B" := {| fid := "B"; hop := 3; payload := Sample.person "B" |}]>
          (<["A" := {| fid := "A"; hop := 3; payload := Sample.person "A" |}]>
             (individuals Sample.empty_graph))
    ∧ size (individuals g') = S (S (size (individuals Sample.empty_graph)))
    ∧ frontier g' = frontier Sample.empty_graph ∪ {["A"]} ∪ {["B"]}
    ∧ relationships g'
      = <[("A", "B") := UNSPECIFIED_PARENT]> (relationships Sample.empty_graph)
    ∧ cp_validator g' = cp_add (cp_validator Sample.empty_graph) "A" "B" "R1".
Proof.
  apply (process_persons_result_two_persons_one_parent
           (H := Sample.relationship_types) (H0 := Sample.validator)
           [("persons", JList [Sample.person "A"; Sample.person "B"]);
            ("childAndParentsRelationships", JList [JObj Sample.two_facts])]
           [("id", JStr "A")] [("id", JStr "B")] Sample.two_facts
           (JObj [("resourceId", JStr "A")]) (JObj [("resourceId", JStr "B")])
           "A" "B" "R1" "A" "B" Sample.empty_graph 3);
    try reflexivity.
  discriminate.
Defined.

Lemma individuals_kept_witness :
  (∀ data hop_count g',
     process_persons_result data
       (set_individuals <["A" := individual_of "A" 0 (Sample.person "A")]>
                        Sample.empty_graph) hop_count = Ok g' →
     is_Some (individuals g' !! "A")
     ∧ ((∀ e, e ∈ person_entries data → person_id e ≠ Ok "A") →
        individuals g' !! "A" = Some (individual_of "A" 0 (Sample.person "A"))))
  ∧ (∀ data g',
       process_relationship_result data
         (set_individuals <["A" := individual_of "A" 0 (Sample.person "A")]>
                          Sample.empty_graph) = Ok g' →
       individuals g' !! "A" = Some (individual_of "A" 0 (Sample.person "A"))).
Proof.
  apply (individuals_kept (H := Sample.relationship_types)
           (H0 := Sample.validator) (H1 := Sample.url_lib)
           (set_individuals <["A" := individual_of "A" 0 (Sample.person "A")]>
                            Sample.empty_graph)
           "A" (individual_of "A" 0 (Sample.person "A"))).
  reflexivity.
Defined.

(** C9 fails as stated: a response that carries a person entry for the known
    id "A" replaces its record, and the hop depth 0 it was created with
    becomes 1. *)
Lemma individual_replaced :
  ∃ g g' ind ind',
    process_persons_result (JObj [("persons", JList [Sample.person "A"])])
                           Sample.empty_graph 0 = Ok g
    ∧ individuals g !! "A" = Some ind
    ∧ process_persons_result (JObj [("persons", JList [Sample.person "A"])]) g 1
      = Ok g'
    ∧ individuals g' !! "A" = Some ind'
    ∧ hop ind = 0 ∧ hop ind' = 1 ∧ ind' ≠ ind.
Proof.
  eexists _, _, _, _. split; [reflexivity|]. split; [reflexivity|].
  split; [reflexivity|]. split; [reflexivity|].
  split; [reflexivity|]. split; [reflexivity|]. discriminate.
Qed.

(** ** Further properties of the partitioner *)

Lemma split_seq_loop_nonempty {A} (n : nat) (l : list A) :
  Forall (λ g, g ≠ []) (split_seq_loop n l).
Proof.
  funelim (split_seq_loop n l); simp split_seq_loop; by constructor.
Qed.

Lemma split_seq_loop_count {A} (n : nat) (l : list A) :
  (0 < n)%nat →
  length (split_seq_loop n l) = ((length l + n - 1) / n)%nat.
Proof.
  intros Hn. funelim (split_seq_loop n l); try lia; simp split_seq_loop.
  - cbn [length]. symmetry. apply Nat.div_small. lia.
  - cbn [length].
    match goal with IH : (_ → length _ = _) |- _ => rewrite IH by lia end.
    cbn [drop]. rewrite length_drop.
    replace (S (length it') + S n - 1)%nat with (length it' + 1 * S n)%nat by lia.
    rewrite Nat.div_add by lia.
    destruct (decide (n ≤ length it')%nat).
    + replace (length it' - n + S n - 1)%nat with (length it') by lia. lia.
    + rewrite !Nat.div_small by lia. lia.
Qed.

Lemma final_requests_nonempty (ids : list string) (b : Z) :
  Forall (λ r, request_ids r ≠ [])
    (if bool_decide (1 < b) then
       (λ i, Ids (slice ids (i * Z.to_nat b) ((i + 1) * Z.to_nat b)))
         <$> seq 0 (Z.to_nat ((Z.of_nat (length ids) + b - 1) `div` b))
     else BareId <$> ids).
Proof.
  case_bool_decide as Hb; apply Forall_fmap, Forall_forall.
  - intros i Hi%elem_of_seq. simpl. intros Hnil.
    apply (f_equal length) in Hnil. unfold slice in Hnil.
    rewrite length_take, length_drop in Hnil. simpl in Hnil.
    pose proof (Z.div_mod (Z.of_nat (length ids) + b - 1) b).
    pose proof (Z.mod_pos_bound (Z.of_nat (length ids) + b - 1) b).
    assert (Z.of_nat i + 1 ≤ (Z.of_nat (length ids) + b - 1) `div` b) by lia.
    nia.
  - intros i _. done.
Qed.

(** No request is empty and no group is empty, whatever the limits are. *)
Theorem partition_requests_no_empty (L : list (option string))
    (E : option (gset string)) (b c : Z) (groups : list (list request)) :
  partition_requests L E b c = Ok groups →
  Forall (λ g, g ≠ [] ∧ Forall (λ r, request_ids r ≠ []) g) groups.
Proof.
  unfold partition_requests. cbv zeta.
  set (ids := filter_ids L (default ∅ E)).
  set (final := if bool_decide (1 < b) then _ else _).
  intros [Hc ->]%split_seq_inv.
  pose proof (final_requests_nonempty ids b) as Hfinal. fold final in Hfinal.
  apply Forall_forall. intros g Hg. split.
  - pose proof (split_seq_loop_nonempty (Z.to_nat c) final) as Hne.
    rewrite Forall_forall in Hne. by apply Hne.
  - apply Forall_forall. intros r Hr.
    rewrite Forall_forall in Hfinal. apply Hfinal.
    destruct (decide (c = 0)) as [->|].
    { change (Z.to_nat 0) with 0%nat in Hg.
      rewrite split_seq_loop_zero in Hg. by apply elem_of_nil in Hg. }
    rewrite <- (split_seq_loop_concat (Z.to_nat c) final) by lia.
    apply list_elem_of_In, in_concat. exists g.
    by rewrite <- !list_elem_of_In.
Qed.

Lemma partition_requests_no_empty_witness :
  Forall (λ g, g ≠ [] ∧ Forall (λ r, request_ids r ≠ []) g)
         [[Ids ["A"; "B"]; Ids ["C"]]].
Proof.
  apply (partition_requests_no_empty [Some "A"; Some "B"; Some "C"] None 2 40).
  reflexivity.
Defined.

(** The number of requests and of groups: with [n] ids left after filtering,
    a max batch size [b > 1] gives ⌈n / b⌉ requests (and [n] requests for
    [b ≤ 1]), and [r] requests are put in ⌈r / c⌉ groups, for a max
    concurrency width [c ≥ 1]. *)
Theorem partition_requests_counts (L : list (option string))
    (E : option (gset string)) (b c : Z) (groups : list (list request)) :
  1 ≤ c →
  partition_requests L E b c = Ok groups →
  Z.of_nat (length (concat groups))
  = (if bool_decide (1 < b)
     then (Z.of_nat (length (filter_ids L (default ∅ E))) + b - 1) `div` b
     else Z.of_nat (length (filter_ids L (default ∅ E))))
  ∧ Z.of_nat (length groups) = (Z.of_nat (length (concat groups)) + c - 1) `div` c.
Proof.
  intros Hc1. unfold partition_requests. cbv zeta.
  set (ids := filter_ids L (default ∅ E)).
  set (final := if bool_decide (1 < b) then _ else _).
  intros [Hc ->]%split_seq_inv.
  rewrite split_seq_loop_concat by lia. split.
  - subst final. case_bool_decide.
    + rewrite length_fmap, length_seq. rewrite Z2Nat.id; [done|].
      apply Z.div_pos; lia.
    + by rewrite length_fmap.
  - rewrite split_seq_loop_count by lia.
    rewrite Nat2Z.inj_div. f_equal; lia.
Qed.

Lemma partition_requests_counts_witness :
  Z.of_nat (length (concat [[Ids ["A"; "B"]]; [Ids ["C"]]]))
  = (if bool_decide (1 < 2)
     then (Z.of_nat (length (filter_ids [Some "A"; Some "B"; Some "C"]
                                        (default ∅ None))) + 2 - 1) `div` 2
     else Z.of_nat (length (filter_ids [Some "A"; Some "B"; Some "C"]
                                       (default ∅ None))))
  ∧ Z.of_nat (length [[Ids ["A"; "B"]]; [Ids ["C"]]])
    = (Z.of_nat (length (concat [[Ids ["A"; "B"]]; [Ids ["C"]]])) + 1 - 1) `div` 1.
Proof.
  apply (partition_requests_counts [Some "A"; Some "B"; Some "C"] None 2 1);
    [lia | reflexivity].
Defined.

(** A max concurrency width that [islice] refuses, a negative one or one above
    [sys.maxsize], makes the partition raise [ValueError], whatever the ids
    are; every other width gives a partition. *)
Theorem partition_requests_width_error (L : list (option string))
    (E : option (gset string)) (b c : Z) :
  (c < 0 ∨ sys_maxsize < c → partition_requests L E b c = Raise ValueError)
  ∧ (0 ≤ c ≤ sys_maxsize → ∃ groups, partition_requests L E b c = Ok groups).
Proof.
  unfold partition_requests, split_seq. cbv zeta. split; intros Hc.
  - rewrite bool_decide_eq_false_2; [done | lia].
  - rewrite bool_decide_eq_true_2 by done. eauto.
Qed.

Lemma partition_requests_width_error_witness :
  partition_requests [Some "A"] None 200 (-1) = Raise ValueError
  ∧ ∃ groups, partition_requests [Some "A"] None 200 40 = Ok groups.
Proof.
  split.
  - apply (proj1 (partition_requests_width_error [Some "A"] None 200 (-1))). lia.
  - apply (proj2 (partition_requests_width_error [Some "A"] None 200 40)).
    unfold sys_maxsize. lia.
Defined.

(** ** Further properties of relationship resolution *)

Section ResolutionExtras.
Context `{RelationshipTypes, Validator, UrlLib}.
Implicit Types (g : Graph).

Lemma scan_fact_inv (rel : json) (field : string) (default t0 t1 : RelationshipType)
    (fact : json) (log0 log1 : list Replacing) :
  scan_fact rel field default fact (t0, log0) = Ok (t1, log1) →
  (∃ url path, Py.getitem fact "type" = Ok (JStr url)
               ∧ urlparse_path url = Ok path
               ∧ RelationshipType_call (Py.strip_slash path) = Some t1)
  ∧ (log1 = log0 ∨ (t0 ≠ default ∧ ∃ d, log1 = log0 ++ [d])).
Proof.
  unfold scan_fact. intros Hs. inv_bind Hs. rename a into ty.
  inv_bind Hs. rename a into url. inv_bind Hs. rename a into path.
  inv_bind Hs. rename a into log'.
  destruct (RelationshipType_call (Py.strip_slash path)) as [t|] eqn:Ht; [|done].
  injection Hs as -> ->. split.
  - exists url, path. destruct ty; try done. simpl in Hs1. by simplify_eq.
  - destruct (bool_decide (t0 ≠ default)) eqn:Hd; simpl in Hs3.
    + destruct (ne_str t0 (Py.strip_slash path)).
      * inv_bind Hs3. injection Hs3 as <-. right.
        apply bool_decide_eq_true_1 in Hd. eauto.
      * injection Hs3 as <-. by left.
    + injection Hs3 as <-. by left.
Qed.

Lemma scan_facts_inv (rel : json) (field : string) (default : RelationshipType)
    (facts : list json) (t0 t : RelationshipType) (log0 log : list Replacing) :
  for_each (scan_fact rel field default) facts (t0, log0) = Ok (t, log) →
  match last facts with
  | None => t = t0 ∧ log = log0
  | Some fact =>
      ∃ url path, Py.getitem fact "type" = Ok (JStr url)
                  ∧ urlparse_path url = Ok path
                  ∧ RelationshipType_call (Py.strip_slash path) = Some t
  end
  ∧ (length log ≤ length log0 + length facts)%nat
  ∧ (t0 = default → facts ≠ [] → length log < length log0 + length facts)%nat.
Proof.
  revert t0 log0. induction facts as [|fact facts IH]; intros t0 log0; simpl.
  - intros [= -> ->]. split; [done|]. split; [lia|done].
  - intros Hs. inv_bind Hs. destruct a as [t1 log1].
    apply scan_fact_inv in Hs0 as [Hfact Hlog].
    apply IH in Hs as (Hlast & Hlen & Hlen'). split; [|split].
    + rewrite last_cons. destruct (last facts); [exact Hlast|].
      by destruct Hlast as [-> _].
    + destruct Hlog as [->|(_ & d & ->)]; [lia|].
      rewrite length_app in Hlen. simpl in Hlen. lia.
    + intros -> _. destruct Hlog as [->|(Hne & _)]; [lia|done].
Qed.

(** The type [get_relationship_type] returns, for any number of facts: the
    default when the record has no such field or the field holds no fact,
    else the type derived from the last fact.  It logs nothing in the first
    case and fewer diagnostics than there are facts in the second. *)
Theorem get_relationship_type_result (rel : json) (field : string)
    (default t : RelationshipType) (log : list Replacing) :
  get_relationship_type rel field default = Ok (t, log) →
  (Py.contains field rel = Ok false ∧ t = default ∧ log = [])
  ∨ (∃ facts,
       Py.getitem rel field ≫= Py.iter = Ok facts
       ∧ match last facts with
         | None => t = default ∧ log = []
         | Some fact =>
             ∃ url path, Py.getitem fact "type" = Ok (JStr url)
                         ∧ urlparse_path url = Ok path
                         ∧ RelationshipType_call (Py.strip_slash path) = Some t
         end
       ∧ (facts ≠ [] → length log < length facts)%nat).
Proof.
  unfold get_relationship_type. intros Hg. inv_bind Hg.
  destruct a; [|injection Hg as <- <-; by left].
  right. inv_bind Hg. rename a into v. inv_bind Hg. rename a into facts.
  exists facts. rewrite Hg1. simpl. split; [done|].
  apply scan_facts_inv in Hg as (Hlast & _ & Hlen). split; [done|].
  intros Hne. specialize (Hlen eq_refl Hne). simpl in Hlen. lia.
Qed.

(** A conflict cannot be logged for a record without an id: where C5 has a
    record with an id, the same two facts on a record without one make
    [get_relationship_type] raise [KeyError], since the diagnostic formats
    [rel['id']]. *)
Theorem get_relationship_type_conflict_needs_id (members : list (string * json))
    (uriA uriB pathA pathB : string) (tA default : RelationshipType) :
  Py.assoc "parent1Facts" members
    = Some (JList [JObj [("type", JStr uriA)]; JObj [("type", JStr uriB)]]) →
  Py.assoc "id" members = None →
  urlparse_path uriA = Ok pathA →
  urlparse_path uriB = Ok pathB →
  RelationshipType_call (Py.strip_slash pathA) = Some tA →
  Py.strip_slash pathA ≠ Py.strip_slash pathB →
  tA ≠ default →
  get_relationship_type (JObj members) "parent1Facts" default
  = Raise (KeyError "id").
Proof.
  intros Hfacts Hid HA HB HtA Hne Hdef.
  unfold get_relationship_type. simpl. rewrite Hfacts. simpl.
  rewrite HA. simpl.
  rewrite (bool_decide_eq_false_2 (default ≠ default)) by (intros ?; done).
  simpl. rewrite HtA. simpl. rewrite HB. simpl.
  rewrite (bool_decide_eq_true_2 (tA ≠ default)) by done.
  rewrite (ne_str_other_value _ _ _ HtA Hne). simpl.
  by rewrite Hid.
Qed.

End ResolutionExtras.

Section ResolutionEffects.
Context `{RelationshipTypes, Validator, UrlLib}.
Implicit Types (g : Graph) (ws : list (string * string * RelationshipType)).
Implicit Types (rels : gmap (string * string) RelationshipType).

Lemma write_edges_app ws1 ws2 rels :
  write_edges (ws1 ++ ws2) rels = write_edges ws2 (write_edges ws1 rels).
Proof. apply foldl_app. Qed.

Lemma resolves_Ok : resolves Ok.
Proof. right. exists []. by intros []. Qed.

Lemma resolves_bind {X} (m : result X) (k : X → Graph → result Graph) :
  (∀ x, m = Ok x → resolves (k x)) → resolves (λ g, x ← m; k x g).
Proof.
  destruct m as [x|e]; simpl; intros Hk.
  - by apply Hk.
  - left. by exists e.
Qed.

Lemma resolves_seq (f1 f2 : Graph → result Graph) :
  resolves f1 → resolves f2 → resolves (λ g, g1 ← f1 g; f2 g1).
Proof.
  intros [[e He]|(ws1 & Hf1)] Hf2.
  { left. exists e. intros g. by rewrite He. }
  destruct Hf2 as [[e He]|(ws2 & Hf2)].
  { left. exists e. intros g. rewrite Hf1. simpl. apply He. }
  right. exists (ws1 ++ ws2). intros g. rewrite Hf1. simpl. rewrite Hf2.
  destruct g. unfold set_relationships. simpl. by rewrite write_edges_app.
Qed.

Lemma resolves_for_each {X} (body : X → Graph → result Graph) (l : list X) :
  (∀ x, x ∈ l → resolves (body x)) → resolves (for_each body l).
Proof.
  induction l as [|x l IH]; intros Hbody.
  - apply resolves_Ok.
  - apply (resolves_seq (body x) (for_each body l)).
    + apply Hbody. by left.
    + apply IH. intros y Hy. apply Hbody. by right.
Qed.

Lemma update_relationship_info_resolves (rel child parent : json)
    (fact_key : string) :
  resolves (_update_relationship_info rel child parent fact_key).
Proof.
  unfold _update_relationship_info.
  destruct (Py.truthy child && Py.truthy parent); [|apply resolves_Ok].
  destruct (get_relationship_type rel fact_key UNSPECIFIED_PARENT)
    as [[t log]|e]; simpl; [|left; by exists e].
  apply (resolves_bind (Py.as_id child)). intros c _.
  apply (resolves_bind (Py.as_id parent)). intros p _.
  right. by exists [((c, p), t)].
Qed.

Lemma resolve_record_resolves (rel : json) : resolves (resolve_record rel).
Proof.
  unfold resolve_record.
  apply (resolves_bind (resourceId_or_None rel "parent1")). intros parent1 _.
  apply (resolves_bind (resourceId_or_None rel "parent2")). intros parent2 _.
  apply (resolves_bind (resourceId_or_None rel "child")). intros child _.
  apply (resolves_seq
           (_update_relationship_info rel child parent1 "parent1Facts")
           (_update_relationship_info rel child parent2 "parent2Facts"));
    apply update_relationship_info_resolves.
Qed.

(** Whether [process_relationship_result] raises, and the writes it makes,
    are fixed by the response. *)
Lemma process_relationship_result_resolves (data : json) :
  resolves (process_relationship_result data).
Proof.
  unfold process_relationship_result.
  destruct (Py.truthy data); [|apply resolves_Ok].
  apply (resolves_bind (Py.contains "childAndParentsRelationships" data)).
  intros [|] _; [|apply resolves_Ok].
  apply (resolves_bind (Py.getitem data "childAndParentsRelationships")).
  intros rels _.
  apply (resolves_bind (Py.iter rels)). intros records _.
  apply resolves_for_each. intros rel _. apply resolve_record_resolves.
Qed.

(** Two relationship maps that agree on a key, or are both written at it,
    agree on it after the same writes. *)
Lemma write_edges_lookup ws rels rels' (k : string * string) :
  k ∈ ws.*1 ∨ rels !! k = rels' !! k →
  write_edges ws rels !! k = write_edges ws rels' !! k.
Proof.
  revert rels rels'. induction ws as [|[k' t] ws IH]; intros rels rels' Hk.
  - destruct Hk as [Hk|Hk]; [by apply elem_of_nil in Hk | done].
  - simpl. apply IH. destruct (decide (k = k')) as [->|Hne].
    + right. by rewrite !lookup_insert_eq.
    + destruct Hk as [Hk|Hk].
      * left. simpl in Hk. apply elem_of_cons in Hk as [Hk|Hk]; [done|exact Hk].
      * right. by rewrite !lookup_insert_ne.
Qed.

Lemma write_edges_other ws rels (k : string * string) :
  k ∉ ws.*1 → write_edges ws rels !! k = rels !! k.
Proof.
  revert rels. induction ws as [|[k' t] ws IH]; intros rels Hk; [done|].
  simpl in *. apply not_elem_of_cons in Hk as [Hne Hk].
  rewrite IH by done. by rewrite lookup_insert_ne.
Qed.

Lemma write_edges_idemp ws rels :
  write_edges ws (write_edges ws rels) = write_edges ws rels.
Proof.
  apply map_eq. intros k.
  destruct (decide (k ∈ ws.*1)) as [Hk|Hk].
  - apply write_edges_lookup. by left.
  - by rewrite !write_edges_other.
Qed.

(** Resolution is idempotent: resolving the same response a second time
    completes and leaves the graph as the first resolution left it. *)
Theorem process_relationship_result_idempotent (data : json) g g1 :
  process_relationship_result data g = Ok g1 →
  process_relationship_result data g1 = Ok g1.
Proof.
  intros Hg1.
  destruct (process_relationship_result_resolves data) as [[e He]|(ws & Hws)].
  { rewrite He in Hg1. discriminate. }
  rewrite Hws in Hg1. injection Hg1 as <-. rewrite Hws. f_equal.
  destruct g. unfold set_relationships. simpl. by rewrite write_edges_idemp.
Qed.

(** An ingestion or a resolution never fails because of what the graph
    holds: a response that raises on one graph raises the same exception on
    every graph. *)
Theorem errors_come_from_the_response (data : json) (hop_count : Z) g1 g2
    (e : exn) :
  (process_persons_result data g1 hop_count = Raise e →
   process_persons_result data g2 hop_count = Raise e)
  ∧ (process_relationship_result data g1 = Raise e →
     process_relationship_result data g2 = Raise e).
Proof.
  split; intros He.
  - destruct (process_persons_result_performs data hop_count)
      as [[e' He']|(us & _ & Hus)].
    + rewrite He' in He. rewrite He'. done.
    + rewrite Hus in He. discriminate.
  - destruct (process_relationship_result_resolves data) as [[e' He']|(ws & Hws)].
    + rewrite He' in He. rewrite He'. done.
    + rewrite Hws in He. discriminate.
Qed.
End ResolutionEffects.

(** ** Further properties of ingestion *)

Section IngestionExtras.
Context `{RelationshipTypes, Validator}.
Implicit Types (g : Graph).

Lemma person_entries_falsy (data : json) :
  Py.truthy data = false → person_entries data = [].
Proof.
  unfold person_entries. destruct data as [| | | | |members]; try done.
  destruct members as [|[k v] members]; [done|]. intros Hf. exfalso.
  unfold Py.truthy in Hf. rewrite bool_decide_eq_true_2 in Hf; done.
Qed.

Lemma for_each_ingest_person_known (hop_count : Z) (entries : list json) g g1 :
  for_each (ingest_person hop_count) entries g = Ok g1 →
  ∀ e, e ∈ entries →
       ∃ i ind, person_id e = Ok i ∧ individuals g1 !! i = Some ind
                ∧ fid ind = i ∧ hop ind = hop_count.
Proof.
  revert g. induction entries as [|e0 entries IH]; intros g Hloop e He.
  { by apply elem_of_nil in He. }
  simpl in Hloop. inv_bind Hloop. rename a into g0.
  apply elem_of_cons in He as [->|He]; [|by eapply IH].
  apply ingest_person_inv in Hloop0 as (i & Hi & ->).
  exists i.
  cut (∃ ind, individuals g1 !! i = Some ind
              ∧ fid ind = i ∧ hop ind = hop_count).
  { intros (ind & Hind & Hfid & Hhop). by exists ind. }
  eapply (for_each_preserves
            (λ s, ∃ ind, individuals s !! i = Some ind
                         ∧ fid ind = i ∧ hop ind = hop_count));
    [|exact Hloop|].
  - intros e' s s' _ (j & _ & ->)%ingest_person_inv (ind & Hind & Hfid & Hhop).
    simpl. destruct (decide (j = i)) as [->|Hne].
    + rewrite lookup_insert_eq. by eexists.
    + rewrite lookup_insert_ne by done. eauto.
  - simpl. rewrite lookup_insert_eq. by eexists.
Qed.

Lemma individuals_apply_updates_inv (us : list update) g (i : string)
    (ind : Individual) :
  individuals (apply_updates us g) !! i = Some ind →
  individuals g !! i = Some ind ∨ SetIndividual i ind ∈ us.
Proof.
  revert g. induction us as [|u us IH]; intros g; [by left|]. simpl.
  change (foldl _ ?g0 us) with (apply_updates us g0).
  intros [Hi|Hi]%IH; [|right; by right].
  rewrite individuals_apply_update in Hi. destruct u; try by left.
  destruct (decide (i0 = i)) as [->|Hne].
  - rewrite lookup_insert_eq in Hi. injection Hi as ->. right. by left.
  - rewrite lookup_insert_ne in Hi by done. by left.
Qed.

(** After an ingestion every individual is the record it was, or the record
    of a person entry of the response at the hop depth of the ingestion; and
    no individual is lost. *)
Lemma process_persons_result_frame (data : json) (hop_count : Z) g g' :
  process_persons_result data g hop_count = Ok g' →
  (∀ i ind, individuals g' !! i = Some ind →
            individuals g !! i = Some ind
            ∨ ∃ e, e ∈ person_entries data ∧ person_id e = Ok i
                   ∧ ind = individual_of i hop_count e)
  ∧ (∀ i, is_Some (individuals g !! i) → is_Some (individuals g' !! i)).
Proof.
  intros Hg'.
  destruct (performs_Ok_inv _ _ _ _
              (process_persons_result_performs data hop_count) Hg')
    as (us & Hus & Hdata).
  rewrite Hdata in Hg'. injection Hg' as <-. split.
  - intros i ind [Hi|Hi]%individuals_apply_updates_inv; [by left|right].
    rewrite Forall_forall in Hus. exact (Hus _ Hi).
  - intros i. apply individuals_apply_updates_is_Some.
Qed.

Lemma for_each_ingest_relationship_individuals (rels : list json) g g' :
  for_each ingest_relationship rels g = Ok g' →
  individuals g' = individuals g.
Proof.
  intros Hloop.
  assert (Hperf : performs (λ u, ∀ i ind, u ≠ SetIndividual i ind)
                           (for_each ingest_relationship rels)).
  { apply performs_for_each. intros r _.
    by apply ingest_relationship_performs. }
  destruct (performs_Ok_inv _ _ _ _ Hperf Hloop) as (us & Hus & Hrels).
  rewrite Hrels in Hloop. injection Hloop as <-.
  apply map_eq. intros i. apply individuals_apply_updates_other.
  eapply Forall_impl; [exact Hus|]. naive_solver.
Qed.

(** What a persons-list response does to the individuals: every person entry
    of an ingested response is a known individual afterwards, carrying its id
    and the hop depth of the ingestion; every individual of the graph is
    either the record it was before or the record made of one of the person
    entries; and the relationship section has no part in it. *)
Theorem process_persons_result_individuals (data : json) (hop_count : Z) g g' :
  process_persons_result data g hop_count = Ok g' →
  (∀ e, e ∈ person_entries data →
        ∃ i ind, person_id e = Ok i ∧ individuals g' !! i = Some ind
                 ∧ fid ind = i ∧ hop ind = hop_count)
  ∧ (∀ i ind, individuals g' !! i = Some ind →
              individuals g !! i = Some ind
              ∨ ∃ e, e ∈ person_entries data ∧ person_id e = Ok i
                     ∧ ind = individual_of i hop_count e)
  ∧ (∃ g1, for_each (ingest_person hop_count) (person_entries data) g = Ok g1
           ∧ individuals g' = individuals g1).
Proof.
  intros Hg'. pose proof (process_persons_result_frame _ _ _ _ Hg') as [Hframe _].
  assert (Hloop : ∃ g1,
            for_each (ingest_person hop_count) (person_entries data) g = Ok g1
            ∧ individuals g' = individuals g1).
  { unfold process_persons_result in Hg'.
    destruct (Py.truthy data) eqn:Htruthy.
    - unfold person_entries. inv_bind Hg'. rename a into persons.
      inv_bind Hg'. rename a into entries. inv_bind Hg'. rename a into g1.
      rewrite Hg'0. simpl. rewrite Hg'1. exists g1. split; [done|].
      inv_bind Hg'. destruct a; [|by injection Hg' as <-].
      do 2 inv_bind Hg'.
      by apply for_each_ingest_relationship_individuals in Hg'.
    - injection Hg' as <-. rewrite person_entries_falsy by done.
      by exists g. }
  destruct Hloop as (g1 & Hloop & Hsame). split; [|split; [done|eauto]].
  intros e He. rewrite Hsame. by eapply for_each_ingest_person_known.
Qed.

(** A relationship entry of a persons-list response must carry an id and a
    child: when the person entries are ingested and the first relationship
    entry lacks one of the two keys, the ingestion raises [KeyError] (for
    "id" if that is missing, else for "child"), parents or not. *)
Theorem process_persons_result_relationship_keys
    (md mr : list (string * json)) (persons rels : json)
    (entries rest : list json) (hop_count : Z) g g1 :
  Py.assoc "persons" md = Some persons →
  Py.iter persons = Ok entries →
  for_each (ingest_person hop_count) entries g = Ok g1 →
  Py.assoc "childAndParentsRelationships" md = Some rels →
  Py.iter rels = Ok (JObj mr :: rest) →
  Py.assoc "id" mr = None ∨ Py.assoc "child" mr = None →
  process_persons_result (JObj md) g hop_count
  = Raise (KeyError (match Py.assoc "id" mr with
                     | Some _ => "child"
                     | None => "id"
                     end)).
Proof.
  intros Hpersons Hentries Hloop Hrels Hiter Hmissing.
  unfold process_persons_result.
  rewrite (assoc_Some_truthy _ _ _ Hpersons). simpl.
  rewrite Hpersons. simpl. rewrite Hentries. simpl. rewrite Hloop. simpl.
  rewrite Hrels. rewrite bool_decide_eq_true_2 by eauto. simpl.
  rewrite Hiter. simpl. unfold ingest_relationship. simpl.
  destruct (Py.assoc "id" mr) as [rel_id|]; simpl; [|done].
  destruct Hmissing as [?| ->]; done.
Qed.
End IngestionExtras.

(** ** Further properties of the drivers *)

Lemma filter_ids_nothing (ids : list (option string)) (E : gset string) :
  (∀ i, Some i ∈ ids → i ∈ E) → filter_ids ids E = [].
Proof.
  intros Hknown. destruct (filter_ids ids E) as [|i rest] eqn:Hf; [done|].
  assert (Hi : i ∈ filter_ids ids E) by (rewrite Hf; by left).
  apply filter_ids_elem in Hi as [Hi HE]. destruct HE. by apply Hknown.
Qed.

Lemma partition_requests_nothing (ids : list (option string))
    (E : option (gset string)) (b c : Z) :
  filter_ids ids (default ∅ E) = [] → 0 ≤ c ≤ sys_maxsize →
  partition_requests ids E b c = Ok [].
Proof.
  intros Hnone Hc. unfold partition_requests. cbv zeta. rewrite Hnone.
  rewrite split_seq_Ok by done. f_equal. simpl.
  case_bool_decide; [|apply split_seq_loop_nil].
  rewrite Z.div_small by lia. apply split_seq_loop_nil.
Qed.

Section DriverExtras.
Context `{RelationshipTypes, Validator, UrlLib, Transport, Formatting}.
Context `{!Resolution}.
Implicit Types (g : Graph) (s : Session).

Lemma add_individuals_to_graph_nothing (hop_count : Z)
    (ids : list (option string)) (loop : EventLoop) s g :
  filter_ids ids (dom (individuals g)) = [] →
  add_individuals_to_graph hop_count ids loop (s, g) = Ok (s, g).
Proof.
  intros Hnone. unfold add_individuals_to_graph. cbn [snd].
  rewrite partition_requests_nothing; [done|exact Hnone|].
  unfold MAX_CONCURRENT_REQUESTS, sys_maxsize. lia.
Qed.

(** Ids that are all known already (or null) cause no request: the graph and
    the session are returned as they were. *)
Theorem add_individuals_to_graph_known (hop_count : Z)
    (ids : list (option string)) (loop : EventLoop) s g :
  (∀ i, Some i ∈ ids → i ∈ dom (individuals g)) →
  add_individuals_to_graph hop_count ids loop (s, g) = Ok (s, g).
Proof.
  intros Hknown. apply add_individuals_to_graph_nothing.
  by apply filter_ids_nothing.
Qed.

(** The resolution driver writes to the relationship map only, and only to
    add or retype edges: individuals, frontier and validator are as before,
    and every edge that was there still is. *)
Theorem resolve_relationships_only_relationships
    (rel_ids : list (option string)) (loop : EventLoop) s s' g g' :
  resolve_relationships rel_ids loop (s, g) = Ok (s', g') →
  individuals g' = individuals g ∧ frontier g' = frontier g
  ∧ cp_validator g' = cp_validator g
  ∧ dom (relationships g) ⊆ dom (relationships g').
Proof.
  unfold resolve_relationships. intros Hres. inv_bind Hres.
  set (P := λ g0 : Graph,
         individuals g0 = individuals g ∧ frontier g0 = frontier g
         ∧ cp_validator g0 = cp_validator g
         ∧ dom (relationships g) ⊆ dom (relationships g0)).
  change (P (s', g').2).
  eapply (for_each_preserves (λ st : Session * Graph, P st.2));
    [|exact Hres|by unfold P].
  intros requests [s1 g1] [s2 g2] _ Hgroup. simpl.
  eapply (run_until_complete_preserves P); [|exact Hgroup].
  intros data ga gb (Hi & Hf & Hv & Hk)%process_relationship_result_keeps
    (Hi' & Hf' & Hv' & Hk').
  unfold P. rewrite Hi, Hf, Hv. repeat split; try done.
  intros k Hin. apply elem_of_dom, Hk, elem_of_dom, Hk', Hin.
Qed.

Lemma add_individuals_to_graph_frame (hop_count : Z)
    (ids : list (option string)) (loop : EventLoop) s s' g g' :
  add_individuals_to_graph hop_count ids loop (s, g) = Ok (s', g') →
  (∀ i ind, individuals g' !! i = Some ind →
            individuals g !! i = Some ind ∨ (fid ind = i ∧ hop ind = hop_count))
  ∧ (∀ i, is_Some (individuals g !! i) → is_Some (individuals g' !! i)).
Proof.
  unfold add_individuals_to_graph. intros Hadd. inv_bind Hadd.
  set (P := λ g0 : Graph,
         (∀ i ind, individuals g0 !! i = Some ind →
                   individuals g !! i = Some ind
                   ∨ (fid ind = i ∧ hop ind = hop_count))
         ∧ (∀ i, is_Some (individuals g !! i) → is_Some (individuals g0 !! i))).
  change (P (s', g').2).
  eapply (for_each_preserves (λ st : Session * Graph, P st.2));
    [|exact Hadd|by split; [left|]].
  intros requests [s1 g1] [s2 g2] _ Hgroup. simpl.
  eapply (run_until_complete_preserves P); [|exact Hgroup].
  intros data ga gb [Hframe Hkept]%process_persons_result_frame [Hold Hdom].
  split.
  - intros i ind [Hi|(e & _ & _ & ->)]%Hframe; [by apply Hold | by right].
  - intros i Hi. by apply Hkept, Hdom.
Qed.

(** A hop forgets no individual, and every individual of the graph after the
    hop is the record it was before the hop or carries the hop depth of this
    hop. *)
Theorem process_hop_individuals (hop_count : Z) (loop : EventLoop)
    (strict_resolve : bool) s s' g g' :
  process_hop hop_count loop strict_resolve (s, g) = Ok (s', g') →
  dom (individuals g) ⊆ dom (individuals g')
  ∧ (∀ i ind, individuals g' !! i = Some ind →
              individuals g !! i = Some ind
              ∨ (fid ind = i ∧ hop ind = hop_count)).
Proof.
  unfold process_hop. intros Hhop. inv_bind Hhop. destruct a as [s1 g1].
  apply resolve_relationships_keeps in Hhop as [-> _]. simpl.
  apply add_individuals_to_graph_frame in Hhop0 as [Hframe Hkept]. split.
  - intros i Hi. apply elem_of_dom, Hkept, elem_of_dom, Hi.
  - exact Hframe.
Qed.





End DriverExtras.

(** ** The further properties at work on the sample environment *)

Lemma get_relationship_type_result_witness :
  (Py.contains "parent1Facts" (JObj Sample.two_facts) = Ok false
   ∧ Sample.StepParent = Sample.UnspecifiedParentType
   ∧ [{| replaced := Sample.BiologicalParent; replacement := "StepParent";
         of_relationship := JStr "R1"; in_field := "parent1Facts" |}] = [])
  ∨ (∃ facts,
       Py.getitem (JObj Sample.two_facts) "parent1Facts" ≫= Py.iter = Ok facts
       ∧ match last facts with
         | None => Sample.StepParent = Sample.UnspecifiedParentType
                   ∧ [{| replaced := Sample.BiologicalParent;
                         replacement := "StepParent";
                         of_relationship := JStr "R1";
                         in_field := "parent1Facts" |}] = []
         | Some fact =>
             ∃ url path, Py.getitem fact "type" = Ok (JStr url)
                         ∧ urlparse_path url = Ok path
                         ∧ RelationshipType_call (Py.strip_slash path)
                           = Some Sample.StepParent
         end
       ∧ (facts ≠ [] →
          length [{| replaced := Sample.BiologicalParent;
                     replacement := "StepParent";
                     of_relationship := JStr "R1";
                     in_field := "parent1Facts" |}] < length facts)%nat).
Proof.
  apply (get_relationship_type_result (H := Sample.relationship_types)
           (JObj Sample.two_facts) "parent1Facts"
           Sample.UnspecifiedParentType Sample.StepParent).
  reflexivity.
Defined.

Lemma get_relationship_type_conflict_needs_id_witness :
  get_relationship_type
    (JObj [("parent1Facts",
            JList [JObj [("type", JStr "http://gedcomx.org/BiologicalParent")];
                   JObj [("type", JStr "http://gedcomx.org/StepParent")]])])
    "parent1Facts" Sample.UnspecifiedParentType
  = Raise (KeyError "id").
Proof.
  apply (get_relationship_type_conflict_needs_id
           (H := Sample.relationship_types)
           [("parent1Facts",
             JList [JObj [("type", JStr "http://gedcomx.org/BiologicalParent")];
                    JObj [("type", JStr "http://gedcomx.org/StepParent")]])]
           "http://gedcomx.org/BiologicalParent" "http://gedcomx.org/StepParent"
           "/BiologicalParent" "/StepParent"
           Sample.BiologicalParent Sample.UnspecifiedParentType);
    [reflexivity | reflexivity | reflexivity | reflexivity | reflexivity
    | discriminate | discriminate].
Defined.


Lemma process_relationship_result_idempotent_witness :
  process_relationship_result
    (JObj [("childAndParentsRelationships", JList [JObj Sample.two_facts])])
    (Sample.graph_of
       (process_relationship_result
          (JObj [("childAndParentsRelationships", JList [JObj Sample.two_facts])])
          Sample.empty_graph))
  = Ok (Sample.graph_of
          (process_relationship_result
             (JObj [("childAndParentsRelationships",
                     JList [JObj Sample.two_facts])])
             Sample.empty_graph)).
Proof.
  apply (process_relationship_result_idempotent
           (H := Sample.relationship_types) (H0 := Sample.validator)
           (H1 := Sample.url_lib)
           (JObj [("childAndParentsRelationships", JList [JObj Sample.two_facts])])
           Sample.empty_graph).
  reflexivity.
Defined.

Lemma errors_come_from_the_response_witness :
  process_persons_result (JObj [("childAndParentsRelationships", JList [])])
                         Sample.seed_graph 0
  = Raise (KeyError "persons")
  ∧ process_relationship_result
      (JObj [("childAndParentsRelationships",
              JList [Sample.child_and_parent "R1" "A" "B"
                       "http://gedcomx.org/Godparent"])])
      Sample.seed_graph
    = Raise ValueError.
Proof.
  split.
  - apply (proj1 (errors_come_from_the_response
                    (H := Sample.relationship_types) (H0 := Sample.validator)
                    (H1 := Sample.url_lib)
                    (JObj [("childAndParentsRelationships", JList [])]) 0
                    Sample.empty_graph Sample.seed_graph (KeyError "persons"))).
    reflexivity.
  - apply (proj2 (errors_come_from_the_response
                    (H := Sample.relationship_types) (H0 := Sample.validator)
                    (H1 := Sample.url_lib)
                    (JObj [("childAndParentsRelationships",
                            JList [Sample.child_and_parent "R1" "A" "B"
                                     "http://gedcomx.org/Godparent"])]) 0
                    Sample.empty_graph Sample.seed_graph ValueError)).
    reflexivity.
Defined.

Lemma process_persons_result_individuals_witness :
  (∀ e, e ∈ person_entries (Sample.family "A" "B" "R1") →
        ∃ i ind, person_id e = Ok i
                 ∧ individuals
                     (Sample.graph_of
                        (process_persons_result (Sample.family "A" "B" "R1")
                                                Sample.empty_graph 2)) !! i
                   = Some ind
                 ∧ fid ind = i ∧ hop ind = 2)
  ∧ (∀ i ind,
       individuals
         (Sample.graph_of
            (process_persons_result (Sample.family "A" "B" "R1")
                                    Sample.empty_graph 2)) !! i = Some ind →
       individuals Sample.empty_graph !! i = Some ind
       ∨ ∃ e, e ∈ person_entries (Sample.family "A" "B" "R1")
              ∧ person_id e = Ok i ∧ ind = individual_of i 2 e)
  ∧ (∃ g1, for_each (ingest_person 2)
                    (person_entries (Sample.family "A" "B" "R1"))
                    Sample.empty_graph = Ok g1
           ∧ individuals
               (Sample.graph_of
                  (process_persons_result (Sample.family "A" "B" "R1")
                                          Sample.empty_graph 2))
             = individuals g1).
Proof.
  apply (process_persons_result_individuals
           (H := Sample.relationship_types) (H0 := Sample.validator)
           (Sample.family "A" "B" "R1") 2 Sample.empty_graph).
  reflexivity.
Defined.

Lemma process_persons_result_relationship_keys_witness :
  process_persons_result
    (JObj [("persons", JList [Sample.person "A"]);
           ("childAndParentsRelationships",
            JList [JObj [("id", JStr "R1");
                         ("parent1", JObj [("resourceId", JStr "B")])]])])
    Sample.empty_graph 0
  = Raise (KeyError "child").
Proof.
  apply (process_persons_result_relationship_keys
           (H := Sample.relationship_types) (H0 := Sample.validator)
           [("persons", JList [Sample.person "A"]);
            ("childAndParentsRelationships",
             JList [JObj [("id", JStr "R1");
                          ("parent1", JObj [("resourceId", JStr "B")])]])]
           [("id", JStr "R1"); ("parent1", JObj [("resourceId", JStr "B")])]
           (JList [Sample.person "A"])
           (JList [JObj [("id", JStr "R1");
                         ("parent1", JObj [("resourceId", JStr "B")])]])
           [Sample.person "A"] [] 0 Sample.empty_graph
           (set_individuals
              <["A" := individual_of "A" 0 (Sample.person "A")]>
              Sample.empty_graph));
    [reflexivity | reflexivity | reflexivity | reflexivity | reflexivity
    | by right].
Defined.

Lemma add_individuals_to_graph_known_witness :
  add_individuals_to_graph 1 [Some "A"; None] Sample.loop
    (0%nat, set_individuals <["A" := individual_of "A" 0 (Sample.person "A")]>
                            Sample.empty_graph)
  = Ok (0%nat, set_individuals <["A" := individual_of "A" 0 (Sample.person "A")]>
                               Sample.empty_graph).
Proof.
  apply (add_individuals_to_graph_known (H := Sample.relationship_types)
           (H0 := Sample.validator) (H2 := Sample.transport)).
  intros i Hi. apply elem_of_cons in Hi as [[= ->]|Hi].
  - vm_compute. reflexivity.
  - apply list_elem_of_singleton in Hi. discriminate Hi.
Defined.

Lemma resolve_relationships_only_relationships_witness :
  individuals
    (set_relationships <[("A", "B") := Sample.BiologicalParent]>
       (Sample.graph_of (process_persons_result (Sample.family "A" "B" "R1")
                                                Sample.empty_graph 0)))
  = individuals
      (Sample.graph_of (process_persons_result (Sample.family "A" "B" "R1")
                                               Sample.empty_graph 0))
  ∧ frontier
      (set_relationships <[("A", "B") := Sample.BiologicalParent]>
         (Sample.graph_of (process_persons_result (Sample.family "A" "B" "R1")
                                                  Sample.empty_graph 0)))
    = frontier
        (Sample.graph_of (process_persons_result (Sample.family "A" "B" "R1")
                                                 Sample.empty_graph 0))
  ∧ cp_validator
      (set_relationships <[("A", "B") := Sample.BiologicalParent]>
         (Sample.graph_of (process_persons_result (Sample.family "A" "B" "R1")
                                                  Sample.empty_graph 0)))
    = cp_validator
        (Sample.graph_of (process_persons_result (Sample.family "A" "B" "R1")
                                                 Sample.empty_graph 0))
  ∧ dom (relationships
           (Sample.graph_of (process_persons_result (Sample.family "A" "B" "R1")
                                                    Sample.empty_graph 0)))
    ⊆ dom (relationships
             (set_relationships <[("A", "B") := Sample.BiologicalParent]>
                (Sample.graph_of
                   (process_persons_result (Sample.family "A" "B" "R1")
                                           Sample.empty_graph 0)))).
Proof.
  apply (resolve_relationships_only_relationships
           (H := Sample.relationship_types) (H0 := Sample.validator)
           (H2 := Sample.transport)
           [Some "R1"] Sample.loop 0%nat 1%nat).
  reflexivity.
Defined.

Lemma process_hop_individuals_witness :
  dom (individuals Sample.seed_graph) ⊆ dom (individuals Sample.after_hop.2)
  ∧ (∀ i ind, individuals Sample.after_hop.2 !! i = Some ind →
              individuals Sample.seed_graph !! i = Some ind
              ∨ (fid ind = i ∧ hop ind = 0)).
Proof.
  apply (process_hop_individuals (H := Sample.relationship_types)
           (H0 := Sample.validator) (H2 := Sample.transport)
           0 Sample.loop false 0%nat Sample.after_hop.1).
  reflexivity.
Defined.



